(** * both1d: residual and Jacobian of the 1D advection-diffusion solver

    A shallow embedding of [c/ch11/solns/both1d.c].  The program discretises
      - eps u'' + (a(x) u)' = 0   on [-1,1],  u(-1) = 1, u(1) = 0
    on a uniform grid that a DMDA distributes over workers.

    Modelling choices.
    - [PetscReal] is read as a real number ([R]): the statements below are
      the exact-arithmetic content of the code, rounding is not modelled.
    - [PetscInt] is [Z]; the grids considered are far from the integer range.
    - A ghosted array [au] and the residual array [aF] are indexed by the
      global index, as DMDA arrays are: they are functions [Z -> R].  What a
      worker may read is expressed by hypotheses on where its local array
      agrees with the global vector.
    - A [Mat] is the function giving its entries; [MatSetValues] with
      [ADD_VALUES] adds into entries.
    - The two limiter function pointers of [AdCtx] are [option]s of a pointer
      name; [None] is the C [NULL]. *)

From Stdlib Require Import Reals Lra ZArith Lia List Bool.
Import ListNotations.

Open Scope Z_scope.
Open Scope R_scope.

(** ** Limiters *)

Inductive LimiterType : Set := NONE | CENTERED | VANLEER.

Definition centered (theta : R) : R := 0.5.

Definition vanleer (theta : R) : R :=
  let abstheta := Rabs theta in
  0.5 * (theta + abstheta) / (1.0 + abstheta).

(** The addresses [&centered] and [&vanleer]. *)
Inductive LimiterPtr : Set := addr_centered | addr_vanleer.

Definition call (p : LimiterPtr) : R -> R :=
  match p with
  | addr_centered => centered
  | addr_vanleer => vanleer
  end.

(** [limiterptr[] = {NULL, &centered, &vanleer}]. *)
Definition limiterptr (l : LimiterType) : option LimiterPtr :=
  match l with
  | NONE => None
  | CENTERED => Some addr_centered
  | VANLEER => Some addr_vanleer
  end.

Record AdCtx : Type := mkAdCtx {
  eps : R;
  limiter_fcn : option LimiterPtr;
  jac_limiter_fcn : option LimiterPtr
}.

Definition wind_a (x : R) : R := 1.0.

(** ** Grid, arrays, matrices *)

Record DMDALocalInfo : Set := mkInfo {
  mx : Z;   (* global number of points *)
  xs : Z;   (* first owned index *)
  xm : Z    (* number of owned points *)
}.

Definition PetscErrorCode := Z.

Definition RealArray := Z -> R.

Definition aset (a : RealArray) (i : Z) (v : R) : RealArray :=
  fun j => if (j =? i)%Z then v else a j.

Definition Mat := Z -> Z -> R.

Definition MatZeroEntries (P : Mat) : Mat := fun _ _ => 0.

Definition MatAddValue (P : Mat) (i j : Z) (v : R) : Mat :=
  fun r c => if ((r =? i) && (c =? j))%Z then P r c + v else P r c.

(** [MatSetValues(P,1,&i,n,col,v,ADD_VALUES)]: one row, [n] columns. *)
Fixpoint MatSetValues (P : Mat) (i : Z) (col : list Z) (v : list R) : Mat :=
  match col, v with
  | c :: col', x :: v' => MatSetValues (MatAddValue P i c x) i col' v'
  | _, _ => P
  end.

(** ** Loops *)

Fixpoint Zrange (lo : Z) (n : nat) : list Z :=
  match n with
  | O => []
  | S k => lo :: Zrange (lo + 1) k
  end.

(** [for (i = lo; i < hi; i++) s = body i s]. *)
Definition for_loop {St : Type} (lo hi : Z) (body : Z -> St -> St) (s : St)
    : St :=
  fold_left (fun st i => body i st) (Zrange lo (Z.to_nat (hi - lo))) s.

Definition Rgeb (x y : R) : bool := if Rge_dec x y then true else false.
Definition Rneqb (x y : R) : bool := if Req_dec_T x y then false else true.
Definition Rleb (x y : R) : bool := if Rle_dec x y then true else false.

Section Evaluators.

(** The wind speed [a(x)]; the program instantiates it with [wind_a]. *)
Variable wind : R -> R.

Definition hx_of (info : DMDALocalInfo) : R := 2.0 / IZR (mx info - 1).

Definition scdiag_of (info : DMDALocalInfo) (usr : AdCtx) : R :=
  (2.0 * eps usr) / hx_of info + 1.0.

(** *** FormFunctionLocal *)

(** Body of the first loop: the non-advective part at the cell centre. *)
Definition cell_value (info : DMDALocalInfo) (au : RealArray) (usr : AdCtx)
    (i : Z) : R :=
  let hx := hx_of info in
  let hx2 := hx * hx in
  let scdiag := scdiag_of info usr in
  if (i =? 0)%Z then scdiag * (au i - 1.0)
  else if (i =? mx info - 1)%Z then scdiag * (au i - 0.0)
  else
    let uW := if (i =? 1)%Z then 1.0 else au (i - 1)%Z in
    let uE := if (i =? mx info - 2)%Z then 0.0 else au (i + 1)%Z in
    let uxx := (uW - 2.0 * au i + uE) / hx2 in
    - eps usr * uxx * hx.

Definition cell_body (info : DMDALocalInfo) (au : RealArray) (usr : AdCtx)
    (i : Z) (aF : RealArray) : RealArray :=
  aset aF i (cell_value info au usr i).

(** What one iteration of the second loop computes at the E face of cell
    [i]: the flux, and the denominator with which [theta] was computed when
    the division was executed ([None] when it was not). *)
Record FaceFlux : Type := mkFace {
  flux : R;
  theta_den : option R
}.

Definition face_a (info : DMDALocalInfo) (i : Z) : R :=
  let hx := hx_of info in
  let halfx := hx / 2.0 in
  let x := -1.0 + IZR i * hx in
  wind (x + halfx).

Definition face_u_up (info : DMDALocalInfo) (au : RealArray) (i : Z) : R :=
  let a := face_a info i in
  if Rgeb a 0.0 then
    if (i =? 0)%Z then 1.0 else au i
  else
    if (i + 1 =? mx info - 1)%Z then 0.0 else au (i + 1)%Z.

Definition face_u_dn (info : DMDALocalInfo) (au : RealArray) (i : Z) : R :=
  let a := face_a info i in
  if Rgeb a 0 then
    if (i + 1 <? mx info - 1)%Z then au (i + 1)%Z else 0.0
  else au i.

Definition face_u_far (info : DMDALocalInfo) (au : RealArray) (i : Z) : R :=
  let a := face_a info i in
  if Rgeb a 0 then
    if (i - 1 >? 0)%Z then au (i - 1)%Z else 1.0
  else
    if (i + 2 <? mx info - 1)%Z then au (i + 2)%Z else 0.0.

Definition face_flux (info : DMDALocalInfo) (au : RealArray) (usr : AdCtx)
    (i : Z) : FaceFlux :=
  let a := face_a info i in
  let u_up := face_u_up info au i in
  let flux0 := a * u_up in
  match limiter_fcn usr with
  | None => mkFace flux0 None
  | Some f =>
      let u_dn := face_u_dn info au i in
      if Rneqb u_dn u_up then
        let u_far := face_u_far info au i in
        let theta := (u_up - u_far) / (u_dn - u_up) in
        mkFace (flux0 + a * call f theta * (u_dn - u_up)) (Some (u_dn - u_up))
      else mkFace flux0 None
  end.

Definition face_body (info : DMDALocalInfo) (au : RealArray) (usr : AdCtx)
    (i : Z) (aF : RealArray) : RealArray :=
  if ((i <? 0) || (i =? mx info - 1))%Z then aF
  else
    let fl := flux (face_flux info au usr i) in
    let aF1 :=
      if ((i >? 0) && (i >=? xs info))%Z then aset aF i (aF i + fl) else aF in
    if ((i + 1 <? mx info - 1) && (i + 1 <? xs info + xm info))%Z
    then aset aF1 (i + 1) (aF1 (i + 1)%Z - fl)
    else aF1.

(** The first loop: every owned cell. *)
Definition cell_pass (info : DMDALocalInfo) (au : RealArray) (usr : AdCtx)
    (aF : RealArray) : RealArray :=
  for_loop (xs info) (xs info + xm info) (cell_body info au usr) aF.

(** The second loop: the E face of every owned cell and of the cell just
    left of the owned range. *)
Definition face_pass (info : DMDALocalInfo) (au : RealArray) (usr : AdCtx)
    (aF : RealArray) : RealArray :=
  for_loop (xs info - 1) (xs info + xm info) (face_body info au usr) aF.

Definition FormFunctionLocal (info : DMDALocalInfo) (au : RealArray)
    (aF : RealArray) (usr : AdCtx) : PetscErrorCode * RealArray :=
  (0%Z, face_pass info au usr (cell_pass info au usr aF)).

(** *** FormJacobianLocal *)

Definition jac_body (info : DMDALocalInfo) (usr : AdCtx) (i : Z) (P : Mat)
    : Mat :=
  let hx := hx_of info in
  let halfx := hx / 2.0 in
  let scdiag := scdiag_of info usr in
  if ((i =? 0) || (i =? mx info - 1))%Z then
    MatSetValues P i [i] [scdiag]
  else
    (* diffusive part *)
    let P1 :=
      MatSetValues P i
        [i; (i - 1)%Z; (i + 1)%Z]
        [(2.0 * eps usr) / hx;
         (if (i - 1 >? 0)%Z then - eps usr / hx else 0.0);
         (if (i + 1 <? mx info - 1)%Z then - eps usr / hx else 0.0)] in
    (* advective part: from each adjacent face *)
    let x := -1.0 + IZR i * hx in
    let aE := wind (x + halfx) in
    let aW := wind (x - halfx) in
    let cv0 :=
      if Rgeb aE 0.0 then (i, aE)
      else ((i + 1)%Z, if (i + 1 <? mx info - 1)%Z then aE else 0.0) in
    let cv1 :=
      if Rgeb aW 0.0 then ((i - 1)%Z, if (i - 1 >? 0)%Z then - aW else 0.0)
      else (i, - aW) in
    let P2 := MatSetValues P1 i [fst cv0; fst cv1] [snd cv0; snd cv1] in
    match jac_limiter_fcn usr with
    | Some addr_centered =>
        let vE :=
          if Rgeb aE 0.0 then
            [(if (i + 1 <? mx info - 1)%Z then aE / 2.0 else 0.0); - aE / 2.0]
          else
            [(if (i + 1 <? mx info - 1)%Z then - aE / 2.0 else 0.0); aE / 2.0] in
        let P3 := MatSetValues P2 i [(i + 1)%Z; i] vE in
        let vW :=
          if Rgeb aW 0.0 then
            [- aW / 2.0; (if (i - 1 >? 0)%Z then aW / 2.0 else 0.0)]
          else
            [aW / 2.0; (if (i - 1 >? 0)%Z then - aW / 2.0 else 0.0)] in
        MatSetValues P3 i [i; (i - 1)%Z] vW
    | _ => P2
    end.

(** The trial solution [u] is an argument of the C function.  The result is
    the error code together with the state of the matrix [P] on return. *)
Definition FormJacobianLocal (info : DMDALocalInfo) (u : RealArray) (P : Mat)
    (usr : AdCtx) : PetscErrorCode * Mat :=
  match jac_limiter_fcn usr with
  | Some addr_vanleer => (1%Z, P)
  | _ =>
      let P0 := MatZeroEntries P in
      (0%Z, for_loop (xs info) (xs info + xm info) (jac_body info usr) P0)
  end.

(** *** Closed forms used in the proofs *)

(** What iteration [i] of the second loop adds to [aF[i]]. *)
Definition face_to_E (info : DMDALocalInfo) (au : RealArray) (usr : AdCtx)
    (i : Z) : R :=
  if ((i <? 0) || (i =? mx info - 1))%Z then 0
  else if ((i >? 0) && (i >=? xs info))%Z
       then flux (face_flux info au usr i) else 0.

(** What iteration [i] of the second loop subtracts from [aF[i+1]]. *)
Definition face_to_W (info : DMDALocalInfo) (au : RealArray) (usr : AdCtx)
    (i : Z) : R :=
  if ((i <? 0) || (i =? mx info - 1))%Z then 0
  else if ((i + 1 <? mx info - 1) && (i + 1 <? xs info + xm info))%Z
       then flux (face_flux info au usr i) else 0.

(** The residual of a cell of a grid of at least two points: the cell
    value, plus the flux through its E face, minus the flux through its W
    face, the latter two for interior cells only. *)
Definition residual_at (info : DMDALocalInfo) (au : RealArray) (usr : AdCtx)
    (j : Z) : R :=
  cell_value info au usr j +
  (if ((0 <? j) && (j <? mx info - 1))%Z
   then flux (face_flux info au usr j) - flux (face_flux info au usr (j - 1))
   else 0).

(** Row [i] of the matrix that [jac_body] adds. *)
Definition jac_row (info : DMDALocalInfo) (usr : AdCtx) (i c : Z) : R :=
  jac_body info usr i (fun _ _ => 0) i c.

End Evaluators.

(** Sum of the values of a [MatSetValues] call that go to column [c]. *)
Fixpoint row_sum (col : list Z) (v : list R) (c : Z) : R :=
  match col, v with
  | k :: col', x :: v' => (if (c =? k)%Z then x else 0) + row_sum col' v' c
  | _, _ => 0
  end.

(** ** Setup in [main] *)

(** [x = -1.0 + i * hx], the coordinate of grid point [i]. *)
Definition xcoord (info : DMDALocalInfo) (i : Z) : R :=
  -1.0 + IZR i * hx_of info.

(** The options block and the check on [eps] (exit code 2). *)
Definition main_options (eps0 : R) (limiter jac_limiter : LimiterType)
    (snesfdset snesfdcolorset : bool) : PetscErrorCode + AdCtx :=
  if Rleb eps0 0.0 then inl 2%Z
  else
    inr {| eps := eps0;
           limiter_fcn := limiterptr limiter;
           jac_limiter_fcn :=
             if snesfdset || snesfdcolorset then None
             else limiterptr jac_limiter |}.

(** The grid is created by the DMDA library ([DMDACreate1d],
    [DMSetFromOptions], [DMSetUp], [DMDASetUniformCoordinates]); [dm] is what
    these calls deliver, an error code or the grid.  [main] propagates an
    error and otherwise goes on with the grid as delivered. *)
Definition main_setup (eps0 : R) (limiter jac_limiter : LimiterType)
    (snesfdset snesfdcolorset : bool) (dm : PetscErrorCode + DMDALocalInfo)
    : PetscErrorCode + AdCtx * DMDALocalInfo :=
  match main_options eps0 limiter jac_limiter snesfdset snesfdcolorset with
  | inl e => inl e
  | inr user =>
      match dm with
      | inl e => inl e
      | inr info => inr (user, info)
      end
  end.

(** ** Workers *)

(** A worker: its owned range, its local (ghosted) copy of the solution and
    its residual array. *)
Record Worker : Type := mkWorker {
  w_xs : Z;
  w_xm : Z;
  w_au : RealArray;
  w_aF : RealArray
}.

Definition worker_info (N : Z) (w : Worker) : DMDALocalInfo :=
  mkInfo N (w_xs w) (w_xm w).

(** The owned ranges follow one another from [lo] to [hi]. *)
Fixpoint contiguous (lo hi : Z) (ws : list Worker) : bool :=
  match ws with
  | [] => (lo =? hi)%Z
  | w :: ws' =>
      ((w_xs w =? lo) && (0 <=? w_xm w))%Z
      && contiguous (lo + w_xm w)%Z hi ws'
  end.

(** The local array of [w] holds the values of the global vector [u] on the
    owned range and [width] cells on each side, inside the grid. *)
Definition halo_agrees (width N : Z) (u : RealArray) (w : Worker) : Prop :=
  forall j : Z,
    (0 <= j < N)%Z ->
    (w_xs w - width <= j < w_xs w + w_xm w + width)%Z ->
    w_au w j = u j.

(** Halo width that the residual evaluation depends on. *)
Definition halo_needed (usr : AdCtx) : Z :=
  match limiter_fcn usr with
  | Some addr_vanleer => 2
  | _ => 1
  end.

Definition owned_values (F : RealArray) (lo n : Z) : list R :=
  map F (Zrange lo (Z.to_nat n)).

Definition worker_residual (wind : R -> R) (N : Z) (usr : AdCtx) (w : Worker)
    : list R :=
  owned_values
    (snd (FormFunctionLocal wind (worker_info N w) (w_au w) (w_aF w) usr))
    (w_xs w) (w_xm w).

Definition distributed_residual (wind : R -> R) (N : Z) (usr : AdCtx)
    (ws : list Worker) : list R :=
  concat (map (worker_residual wind N usr) ws).

Definition serial_residual (wind : R -> R) (N : Z) (usr : AdCtx)
    (u aF : RealArray) : list R :=
  owned_values (snd (FormFunctionLocal wind (mkInfo N 0 N) u aF usr)) 0 N.

(** A grid with at least two points and an owned range inside it. *)
Definition grid_ok (info : DMDALocalInfo) : Prop :=
  (2 <= mx info /\ 0 <= xs info /\ 0 <= xm info /\
   xs info + xm info <= mx info)%Z.

Definition owned (info : DMDALocalInfo) (i : Z) : Prop :=
  (xs info <= i < xs info + xm info)%Z.

(** ** Concrete data used in the examples *)

(** Three points on one worker: [hx = 1]. *)
Definition grid3 : DMDALocalInfo := mkInfo 3 0 3.

(** Five points on one worker: [hx = 1/2]. *)
Definition grid5 : DMDALocalInfo := mkInfo 5 0 5.

(** A single point, as [-da_grid_x 1] asks for on one worker. *)
Definition grid1 : DMDALocalInfo := mkInfo 1 0 1.

Definition zeros : RealArray := fun _ => 0.

Definition zeros_mat : Mat := fun _ _ => 0.

Definition ctx_of (l jl : LimiterType) : AdCtx :=
  mkAdCtx 1 (limiterptr l) (limiterptr jl).

Definition still_air (x : R) : R := 0.

(** A trial solution on five points: 1, 2, 1, 0, 0. *)
Definition u_step : RealArray :=
  fun j => if (j =? 1)%Z then 2 else if (j <=? 2)%Z then 1 else 0.

(** Two workers on five points, owning [0,3) and [3,5).  The local array of
    the right one holds the entries of [u_step] from index 2 on, that is its
    owned cells and one ghost cell, and zero elsewhere. *)
Definition w_left : Worker := mkWorker 0 3 u_step zeros.

Definition w_right : Worker :=
  mkWorker 3 2 (fun j => if (j <? 2)%Z then 0 else u_step j) zeros.

(** The same worker with two ghost cells. *)
Definition w_right2 : Worker :=
  mkWorker 3 2 (fun j => if (j <? 1)%Z then 0 else u_step j) zeros.

(** ** The exact solution and the options of [main] *)

Definition u_exact (x : R) (usr : AdCtx) : R :=
  (1.0 - exp ((x - 1) / eps usr)) / (1.0 - exp (- 2.0 / eps usr)).

(** First and second derivative of [u_exact] in [x], used to state that it
    solves the differential equation. *)
Definition du_exact (x : R) (usr : AdCtx) : R :=
  - (exp ((x - 1) / eps usr) / eps usr) / (1 - exp (- 2 / eps usr)).

Definition d2u_exact (x : R) (usr : AdCtx) : R :=
  - (exp ((x - 1) / eps usr) / (eps usr * eps usr))
  / (1 - exp (- 2 / eps usr)).

Definition uexact_body (info : DMDALocalInfo) (usr : AdCtx) (i : Z)
    (auex : RealArray) : RealArray :=
  let hx := hx_of info in
  let x := -1.0 + IZR i * hx in
  aset auex i (u_exact x usr).

Definition FormUExact (info : DMDALocalInfo) (usr : AdCtx) (uex : RealArray)
    : PetscErrorCode * RealArray :=
  (0%Z,
   for_loop (xs info) (xs info + xm info) (uexact_body info usr) uex).

(** The two [PetscOptionsEnum] calls of [main]: [-limiter] defaults to
    [NONE], [-jac_limiter] to the value that [-limiter] got.  [None] is an
    option that was not given. *)
Definition main_limiters (opt_limiter opt_jac_limiter : option LimiterType)
    : LimiterType * LimiterType :=
  let limiter := match opt_limiter with Some l => l | None => NONE end in
  let jac_limiter :=
    match opt_jac_limiter with Some l => l | None => limiter end in
  (limiter, jac_limiter).

(** [-eps] defaults to 0.01. *)
Definition main_eps (opt_eps : option R) : R :=
  match opt_eps with Some e => e | None => 0.01 end.

(** The context that [main] builds from the command line. *)
Definition main_user (opt_eps : option R)
    (opt_limiter opt_jac_limiter : option LimiterType)
    (snesfdset snesfdcolorset : bool) : PetscErrorCode + AdCtx :=
  let lims := main_limiters opt_limiter opt_jac_limiter in
  main_options (main_eps opt_eps) (fst lims) (snd lims)
    snesfdset snesfdcolorset.

(** Sum of a list of reals. *)
Definition Rsum (l : list R) : R := fold_right Rplus 0 l.

(** The neighbour values that the scheme uses at cell [i]: the array value,
    or the Dirichlet value when the neighbour is a boundary node. *)
Definition west_value (au : RealArray) (i : Z) : R :=
  if (i =? 1)%Z then 1 else au (i - 1)%Z.

Definition east_value (info : DMDALocalInfo) (au : RealArray) (i : Z) : R :=
  if (i =? mx info - 2)%Z then 0 else au (i + 1)%Z.

(** * Proofs *)

(** ** Tests on reals *)

Lemma Rgeb_true (x y : R) : x >= y -> Rgeb x y = true.
Proof. intros H; unfold Rgeb; destruct (Rge_dec x y); [reflexivity | contradiction]. Qed.

Lemma Rgeb_false (x y : R) : x < y -> Rgeb x y = false.
Proof. intros H; unfold Rgeb; destruct (Rge_dec x y); [lra | reflexivity]. Qed.

Lemma Rneqb_true (x y : R) : x <> y -> Rneqb x y = true.
Proof. intros H; unfold Rneqb; destruct (Req_dec_T x y); [contradiction | reflexivity]. Qed.

Lemma Rneqb_false (x y : R) : x = y -> Rneqb x y = false.
Proof. intros H; unfold Rneqb; destruct (Req_dec_T x y); [reflexivity | contradiction]. Qed.

Lemma Rleb_true (x y : R) : x <= y -> Rleb x y = true.
Proof. intros H; unfold Rleb; destruct (Rle_dec x y); [reflexivity | contradiction]. Qed.

Lemma Rleb_false (x y : R) : y < x -> Rleb x y = false.
Proof. intros H; unfold Rleb; destruct (Rle_dec x y); [lra | reflexivity]. Qed.

(** The decimal constants of the program. *)
Lemma dec_0 : 0.0 = 0.
Proof. lra. Qed.

Lemma dec_1 : 1.0 = 1.
Proof. lra. Qed.

Lemma dec_2 : 2.0 = 2.
Proof. lra. Qed.

Lemma dec_half : 0.5 = 1 / 2.
Proof. lra. Qed.

Lemma dec_m1 : -1.0 = -1.
Proof. lra. Qed.

Ltac decimals := rewrite ?dec_0, ?dec_1, ?dec_m1, ?dec_2, ?dec_half.

(** Decide the integer tests that occur in a goal, keeping the facts. *)
Ltac ztests :=
  repeat match goal with
  | |- context [(?a =? ?b)%Z] => destruct (Z.eqb_spec a b)
  | |- context [(?a <? ?b)%Z] => destruct (Z.ltb_spec a b)
  | |- context [(?a <=? ?b)%Z] => destruct (Z.leb_spec a b)
  | |- context [(?a >? ?b)%Z] => rewrite (Z.gtb_ltb a b)
  | |- context [(?a >=? ?b)%Z] => rewrite (Z.geb_leb a b)
  end; cbn [andb orb negb fst snd].

(** Decide the integer tests of a goal, dropping impossible cases at once. *)
Ltac zprune :=
  repeat (match goal with
  | |- context [(?a =? ?b)%Z] => destruct (Z.eqb_spec a b)
  | |- context [(?a <? ?b)%Z] => destruct (Z.ltb_spec a b)
  | |- context [(?a <=? ?b)%Z] => destruct (Z.leb_spec a b)
  | |- context [(?a >? ?b)%Z] => rewrite (Z.gtb_ltb a b)
  | |- context [(?a >=? ?b)%Z] => rewrite (Z.geb_leb a b)
  end; try (exfalso; lia)); cbn [andb orb negb fst snd].

(** Decide the tests on reals that occur in a goal. *)
Ltac rtests :=
  repeat match goal with
  | |- context [Rgeb ?a ?b] =>
      first [ rewrite (Rgeb_true a b) by lra | rewrite (Rgeb_false a b) by lra ]
  | |- context [Rneqb ?a ?b] =>
      first [ rewrite (Rneqb_false a b) by lra | rewrite (Rneqb_true a b) by lra ]
  | |- context [Rleb ?a ?b] =>
      first [ rewrite (Rleb_true a b) by lra | rewrite (Rleb_false a b) by lra ]
  end.

(** ** Grid spacing *)

Lemma IZR_pred_pos (N : Z) : (2 <= N)%Z -> 0 < IZR (N - 1).
Proof. intros H; apply IZR_lt; lia. Qed.

Lemma hx_of_pos (info : DMDALocalInfo) : (2 <= mx info)%Z -> 0 < hx_of info.
Proof.
  intros H; unfold hx_of.
  apply Rdiv_lt_0_compat; [lra | now apply IZR_pred_pos].
Qed.

(** The W face of cell [i] is the E face of cell [i-1]. *)
Lemma west_face_is_east_face (info : DMDALocalInfo) (i : Z) :
  -1.0 + IZR i * hx_of info - hx_of info / 2.0 =
  -1.0 + IZR (i - 1) * hx_of info + hx_of info / 2.0.
Proof. rewrite minus_IZR; lra. Qed.

(** ** Arrays and loops *)

Lemma aset_same (a : RealArray) (i : Z) (v : R) : aset a i v i = v.
Proof. unfold aset; now rewrite Z.eqb_refl. Qed.

Lemma aset_other (a : RealArray) (i j : Z) (v : R) :
  j <> i -> aset a i v j = a j.
Proof. intros H; unfold aset; destruct (Z.eqb_spec j i); [contradiction | reflexivity]. Qed.

Lemma for_loop_nil {St : Type} (lo hi : Z) (body : Z -> St -> St) (s : St) :
  (hi <= lo)%Z -> for_loop lo hi body s = s.
Proof.
  intros H; unfold for_loop.
  replace (Z.to_nat (hi - lo)) with O by lia; reflexivity.
Qed.

Lemma for_loop_step {St : Type} (lo hi : Z) (body : Z -> St -> St) (s : St) :
  (lo < hi)%Z -> for_loop lo hi body s = for_loop (lo + 1) hi body (body lo s).
Proof.
  intros H; unfold for_loop.
  replace (Z.to_nat (hi - lo)) with (S (Z.to_nat (hi - (lo + 1)))) by lia.
  reflexivity.
Qed.

(** Induction over the iterations of a loop, first iteration first. *)
Lemma for_loop_ind {St : Type} (body : Z -> St -> St) (hi : Z)
    (Q : Z -> St -> St -> Prop) :
  (forall lo s, (hi <= lo)%Z -> Q lo s s) ->
  (forall lo s r, (lo < hi)%Z -> Q (lo + 1)%Z (body lo s) r -> Q lo s r) ->
  forall lo s, Q lo s (for_loop lo hi body s).
Proof.
  intros Hnil Hstep lo s.
  remember (Z.to_nat (hi - lo)) as n eqn:En.
  revert lo s En; induction n as [|n IH]; intros lo s En.
  - rewrite for_loop_nil by lia; apply Hnil; lia.
  - rewrite for_loop_step by lia.
    apply Hstep; [lia|]. apply IH; lia.
Qed.

Lemma Zrange_length (lo : Z) (n : nat) : length (Zrange lo n) = n.
Proof. revert lo; induction n; intros lo; simpl; [reflexivity | now rewrite IHn]. Qed.

Lemma Zrange_app (lo : Z) (n m : nat) :
  Zrange lo (n + m) = Zrange lo n ++ Zrange (lo + Z.of_nat n) m.
Proof.
  revert lo; induction n as [|n IH]; intros lo.
  - simpl; now rewrite Z.add_0_r.
  - cbn [Nat.add Zrange app]; rewrite IH; do 3 f_equal; lia.
Qed.

Lemma in_Zrange (lo : Z) (n : nat) (i : Z) :
  In i (Zrange lo n) <-> (lo <= i < lo + Z.of_nat n)%Z.
Proof.
  revert lo; induction n as [|n IH]; intros lo.
  - simpl; lia.
  - cbn [Zrange In]; rewrite IH; lia.
Qed.

(** ** The two loops of FormFunctionLocal *)

Section ResidualLoops.

Variable wind : R -> R.
Variable info : DMDALocalInfo.
Variable au : RealArray.
Variable usr : AdCtx.

(** The first loop assigns the owned cells and nothing else. *)
Lemma cell_loop_entry (lo hi : Z) (aF : RealArray) :
  forall j : Z,
    for_loop lo hi (cell_body info au usr) aF j =
    if ((lo <=? j) && (j <? hi))%Z then cell_value info au usr j else aF j.
Proof.
  apply (for_loop_ind (cell_body info au usr) hi
    (fun lo s r => forall j : Z,
       r j = if ((lo <=? j) && (j <? hi))%Z
             then cell_value info au usr j else s j)).
  - intros l s Hlo j. ztests; try lia; reflexivity.
  - intros l s r Hlo IH j. rewrite IH. unfold cell_body, aset.
    ztests; try lia; try reflexivity.
    subst; reflexivity.
Qed.

Lemma cell_pass_entry (aF : RealArray) (j : Z) :
  cell_pass info au usr aF j =
  if ((xs info <=? j) && (j <? xs info + xm info))%Z
  then cell_value info au usr j else aF j.
Proof. apply cell_loop_entry. Qed.

Lemma face_body_entry (i : Z) (aF : RealArray) (j : Z) :
  face_body wind info au usr i aF j =
  aF j + (if (j =? i)%Z then face_to_E wind info au usr i else 0)
       - (if (j =? i + 1)%Z then face_to_W wind info au usr i else 0).
Proof.
  unfold face_body, face_to_E, face_to_W.
  destruct ((i <? 0) || (i =? mx info - 1))%Z.
  - destruct (j =? i)%Z, (j =? i + 1)%Z; lra.
  - destruct ((i >? 0) && (i >=? xs info))%Z,
      ((i + 1 <? mx info - 1) && (i + 1 <? xs info + xm info))%Z;
      unfold aset; ztests; try lia; subst; try lra.
Qed.

Lemma face_loop_entry (lo hi : Z) (aF : RealArray) :
  forall j : Z,
    for_loop lo hi (face_body wind info au usr) aF j =
    aF j
    + (if ((lo <=? j) && (j <? hi))%Z
       then face_to_E wind info au usr j else 0)
    - (if ((lo <=? j - 1) && (j - 1 <? hi))%Z
       then face_to_W wind info au usr (j - 1) else 0).
Proof.
  apply (for_loop_ind (face_body wind info au usr) hi
    (fun lo s r => forall j : Z,
       r j = s j
       + (if ((lo <=? j) && (j <? hi))%Z
          then face_to_E wind info au usr j else 0)
       - (if ((lo <=? j - 1) && (j - 1 <? hi))%Z
          then face_to_W wind info au usr (j - 1) else 0))).
  - intros l s Hlo j. ztests; try lia; lra.
  - intros l s r Hlo IH j. rewrite IH, face_body_entry.
    ztests; try lia; subst; try lra;
      replace (l + 1 - 1)%Z with l by lia; lra.
Qed.

(** The second loop: cell [j] receives the flux of its E face, when that
    face is visited, and gives away the flux of its W face, when that one
    is visited. *)
Lemma face_pass_entry (aF : RealArray) (j : Z) :
  face_pass wind info au usr aF j =
  aF j
  + (if ((xs info - 1 <=? j) && (j <? xs info + xm info))%Z
     then face_to_E wind info au usr j else 0)
  - (if ((xs info - 1 <=? j - 1) && (j - 1 <? xs info + xm info))%Z
     then face_to_W wind info au usr (j - 1) else 0).
Proof. apply face_loop_entry. Qed.

(** The residual of an owned cell, whatever the owned range is. *)
Lemma FormFunctionLocal_owned (aF : RealArray) (j : Z) :
  (2 <= mx info)%Z -> (0 <= j < mx info)%Z -> owned info j ->
  snd (FormFunctionLocal wind info au aF usr) j = residual_at wind info au usr j.
Proof.
  intros HN Hj [Hlo Hhi]. cbn [FormFunctionLocal snd].
  rewrite face_pass_entry, cell_pass_entry.
  unfold residual_at, face_to_E, face_to_W.
  zprune; lra.
Qed.

End ResidualLoops.

(** ** The loop of FormJacobianLocal *)

Lemma MatSetValues_entry (col : list Z) :
  forall (v : list R) (P : Mat) (i r c : Z),
    MatSetValues P i col v r c =
    P r c + (if (r =? i)%Z then row_sum col v c else 0).
Proof.
  induction col as [|k col IH]; intros v P i r c.
  - cbn. destruct (r =? i)%Z; lra.
  - destruct v as [|x v].
    + cbn. destruct (r =? i)%Z; lra.
    + cbn [MatSetValues row_sum]. rewrite IH. unfold MatAddValue.
      destruct (r =? i)%Z, (c =? k)%Z; cbn [andb]; lra.
Qed.

Section JacobianLoop.

Variable wind : R -> R.
Variable info : DMDALocalInfo.
Variable usr : AdCtx.

(** One iteration adds [jac_row] to row [i] and touches no other row. *)
Lemma jac_body_entry (i : Z) (P : Mat) (r c : Z) :
  jac_body wind info usr i P r c =
  P r c + (if (r =? i)%Z then jac_row wind info usr i c else 0).
Proof.
  unfold jac_row, jac_body.
  destruct ((i =? 0) || (i =? mx info - 1))%Z.
  - rewrite !MatSetValues_entry, Z.eqb_refl. destruct (r =? i)%Z; lra.
  - destruct (jac_limiter_fcn usr) as [[|]|];
      rewrite !MatSetValues_entry, Z.eqb_refl; destruct (r =? i)%Z; lra.
Qed.

Lemma jac_loop_entry (lo hi : Z) (P : Mat) :
  forall r c : Z,
    for_loop lo hi (jac_body wind info usr) P r c =
    P r c + (if ((lo <=? r) && (r <? hi))%Z
             then jac_row wind info usr r c else 0).
Proof.
  apply (for_loop_ind (jac_body wind info usr) hi
    (fun lo s res => forall r c : Z,
       res r c = s r c + (if ((lo <=? r) && (r <? hi))%Z
                          then jac_row wind info usr r c else 0))).
  - intros l s Hlo r c. ztests; try lia; lra.
  - intros l s res Hlo IH r c. rewrite IH, jac_body_entry.
    ztests; try lia; subst; lra.
Qed.

(** The assembled matrix, when the evaluation goes through: the owned rows
    hold [jac_row], every other entry is zero. *)
Lemma FormJacobianLocal_entry (u : RealArray) (P : Mat) (r c : Z) :
  jac_limiter_fcn usr <> Some addr_vanleer ->
  snd (FormJacobianLocal wind info u P usr) r c =
  if ((xs info <=? r) && (r <? xs info + xm info))%Z
  then jac_row wind info usr r c else 0.
Proof.
  intros Hl. unfold FormJacobianLocal.
  destruct (jac_limiter_fcn usr) as [[|]|]; try congruence;
    cbn [snd]; rewrite jac_loop_entry; unfold MatZeroEntries;
    destruct ((xs info <=? r) && (r <? xs info + xm info))%Z; lra.
Qed.

End JacobianLoop.

(** ** Boundary rows *)

(** C3.  On a grid of at least two points, for every limiter and every
    trial solution, the residual of an owned boundary node [j] (0 or N-1)
    is [scdiag * (u_j - bc_j)] with [bc_0 = 1], [bc_(N-1) = 0] and
    [scdiag = 2 eps / h + 1]; the face loop leaves the entry of a boundary
    node as it found it. *)
Theorem boundary_rows_residual (wind : R -> R) (info : DMDALocalInfo)
    (au aF : RealArray) (usr : AdCtx) (j : Z) :
  (2 <= mx info)%Z -> owned info j -> j = 0%Z \/ j = (mx info - 1)%Z ->
  snd (FormFunctionLocal wind info au aF usr) j =
    scdiag_of info usr * (au j - (if (j =? 0)%Z then 1 else 0))
  /\ scdiag_of info usr = 2 * eps usr / hx_of info + 1
  /\ (forall aF' : RealArray, face_pass wind info au usr aF' j = aF' j).
Proof.
  intros HN Hown Hj.
  assert (Hface : forall aF' : RealArray,
             face_pass wind info au usr aF' j = aF' j).
  { intros aF'. rewrite face_pass_entry. unfold face_to_E, face_to_W.
    destruct Hj; subst j; zprune; lra. }
  split; [|split].
  - cbn [FormFunctionLocal snd]. rewrite Hface, cell_pass_entry.
    destruct Hown as [Hlo Hhi]. unfold cell_value.
    destruct Hj; subst j; zprune; lra.
  - unfold scdiag_of; lra.
  - exact Hface.
Qed.

Lemma boundary_rows_residual_witness :
  snd (FormFunctionLocal wind_a grid3 zeros zeros (ctx_of VANLEER NONE)) 0%Z =
    scdiag_of grid3 (ctx_of VANLEER NONE) * (zeros 0%Z - 1)
  /\ scdiag_of grid3 (ctx_of VANLEER NONE) =
       2 * eps (ctx_of VANLEER NONE) / hx_of grid3 + 1
  /\ (forall aF' : RealArray,
        face_pass wind_a grid3 zeros (ctx_of VANLEER NONE) aF' 0%Z = aF' 0%Z).
Proof.
  apply (boundary_rows_residual wind_a grid3 zeros zeros
           (ctx_of VANLEER NONE) 0).
  - simpl; lia.
  - unfold owned; simpl; lia.
  - left; reflexivity.
Defined.

(** ** The unsupported limiter *)

(** C4.  The Jacobian evaluator returns error code 1 (limiter not
    implemented) exactly when the Jacobian-side limiter is van Leer, and 0
    for none and centered, whatever the residual-side limiter, the trial
    solution, the matrix and the grid are. *)
Theorem jacobian_vanleer_unsupported (wind : R -> R) (info : DMDALocalInfo)
    (u : RealArray) (P : Mat) (usr : AdCtx) :
  fst (FormJacobianLocal wind info u P usr) =
  match jac_limiter_fcn usr with
  | Some addr_vanleer => 1%Z
  | Some addr_centered => 0%Z
  | None => 0%Z
  end.
Proof.
  unfold FormJacobianLocal.
  destruct (jac_limiter_fcn usr) as [[|]|]; reflexivity.
Qed.

(** C10.  When the Jacobian-side limiter is van Leer the evaluator returns
    its error with the matrix as it received it: nothing is zeroed and
    nothing is added. *)
Theorem jacobian_failure_keeps_matrix (wind : R -> R) (info : DMDALocalInfo)
    (u : RealArray) (P : Mat) (usr : AdCtx) :
  jac_limiter_fcn usr = Some addr_vanleer ->
  FormJacobianLocal wind info u P usr = (1%Z, P).
Proof. intros H; unfold FormJacobianLocal; now rewrite H. Qed.

Lemma jacobian_failure_keeps_matrix_witness :
  FormJacobianLocal wind_a grid5 zeros (fun r c => IZR (r + c))
    (ctx_of NONE VANLEER) = (1%Z, fun r c => IZR (r + c)).
Proof.
  apply (jacobian_failure_keeps_matrix wind_a grid5 zeros
           (fun r c => IZR (r + c)) (ctx_of NONE VANLEER)).
  reflexivity.
Defined.

(** C9.  The Jacobian evaluator does not read the trial solution: two
    calls that differ only in the trial solution return the same error code
    and the same matrix, for every limiter, grid and [eps]. *)
Theorem jacobian_ignores_solution (wind : R -> R) (info : DMDALocalInfo)
    (u u' : RealArray) (P : Mat) (usr : AdCtx) :
  FormJacobianLocal wind info u P usr = FormJacobianLocal wind info u' P usr.
Proof. reflexivity. Qed.

(** ** The flux at a face *)

(** C8.  At a face where the downwind value equals the upwind value the
    flux is the first-order upwind flux [a * u_up] and [theta] is not
    computed; and for no array is [theta] computed with a zero
    denominator. *)
Theorem face_flux_equal_values (wind : R -> R) (info : DMDALocalInfo)
    (au : RealArray) (usr : AdCtx) (i : Z) :
  face_u_dn wind info au i = face_u_up wind info au i ->
  flux (face_flux wind info au usr i) =
    face_a wind info i * face_u_up wind info au i
  /\ theta_den (face_flux wind info au usr i) = None
  /\ (forall au' : RealArray,
        theta_den (face_flux wind info au' usr i) <> Some 0).
Proof.
  intros Heq. unfold face_flux.
  split; [|split].
  - destruct (limiter_fcn usr); [|reflexivity].
    now rewrite (Rneqb_false _ _ Heq).
  - destruct (limiter_fcn usr); [|reflexivity].
    now rewrite (Rneqb_false _ _ Heq).
  - intros au'. destruct (limiter_fcn usr); [|discriminate].
    unfold Rneqb.
    destruct (Req_dec_T (face_u_dn wind info au' i) (face_u_up wind info au' i))
      as [E|NE]; cbn [theta_den]; [discriminate|].
    intros H; injection H as H. apply NE; lra.
Qed.

Lemma face_flux_equal_values_witness :
  flux (face_flux wind_a grid5 zeros (ctx_of VANLEER NONE) 2) =
    face_a wind_a grid5 2 * face_u_up wind_a grid5 zeros 2
  /\ theta_den (face_flux wind_a grid5 zeros (ctx_of VANLEER NONE) 2) = None
  /\ (forall au' : RealArray,
        theta_den (face_flux wind_a grid5 au' (ctx_of VANLEER NONE) 2)
        <> Some 0).
Proof.
  apply (face_flux_equal_values wind_a grid5 zeros (ctx_of VANLEER NONE) 2).
  unfold face_u_dn, face_u_up, face_a, wind_a, zeros.
  rtests. reflexivity.
Defined.

(** ** The cell loop *)

Lemma hx_of_grid3 : hx_of grid3 = 1.
Proof. unfold hx_of, grid3; cbn. lra. Qed.

(** The value that the first loop gives to an interior cell. *)
Lemma cell_value_interior (info : DMDALocalInfo) (au : RealArray)
    (usr : AdCtx) (i : Z) :
  (2 <= mx info)%Z -> (0 < i < mx info - 1)%Z ->
  cell_value info au usr i =
  - eps usr *
    ((if (i =? 1)%Z then 1 else au (i - 1)%Z) - 2 * au i
     + (if (i =? mx info - 2)%Z then 0 else au (i + 1)%Z)) / hx_of info.
Proof.
  intros HN Hi. pose proof (hx_of_pos info HN) as Hh.
  unfold cell_value. ztests; try lia; decimals; field; lra.
Qed.

(** C6, as the code has it.  For an owned interior cell [i] of a grid of
    at least two points the first loop stores
    [- eps * (uW - 2 u_i + uE) / h], where [uW] is [u_(i-1)], but the
    boundary value 1 when [i = 1], and [uE] is [u_(i+1)], but the boundary
    value 0 when [i = N-2]. *)
Theorem cell_pass_interior (info : DMDALocalInfo) (au aF : RealArray)
    (usr : AdCtx) (i : Z) :
  (2 <= mx info)%Z -> owned info i -> (0 < i < mx info - 1)%Z ->
  cell_pass info au usr aF i =
  - eps usr *
    ((if (i =? 1)%Z then 1 else au (i - 1)%Z) - 2 * au i
     + (if (i =? mx info - 2)%Z then 0 else au (i + 1)%Z)) / hx_of info.
Proof.
  intros HN [Hlo Hhi] Hi. rewrite cell_pass_entry.
  rewrite <- cell_value_interior by assumption.
  ztests; try lia; reflexivity.
Qed.

Lemma cell_pass_interior_witness :
  cell_pass grid5 zeros (ctx_of NONE NONE) zeros 2%Z =
  - eps (ctx_of NONE NONE) *
    ((if (2 =? 1)%Z then 1 else zeros (2 - 1)%Z) - 2 * zeros 2%Z
     + (if (2 =? mx grid5 - 2)%Z then 0 else zeros (2 + 1)%Z)) / hx_of grid5.
Proof.
  apply (cell_pass_interior grid5 zeros zeros (ctx_of NONE NONE) 2).
  - simpl; lia.
  - unfold owned; simpl; lia.
  - simpl; lia.
Defined.

(** C6, as stated, fails next to a boundary: on three points with
    [eps = 1] and the zero array, the first loop stores -1 for cell 1 (it
    takes the boundary value 1 for the W neighbour), while the formula with
    the array values [u_0], [u_2] gives 0. *)
Lemma cell_pass_raw_neighbours_fails :
  cell_pass grid3 zeros (ctx_of NONE NONE) zeros 1%Z = -1
  /\ - eps (ctx_of NONE NONE) *
       (zeros (1 - 1)%Z - 2 * zeros 1%Z + zeros (1 + 1)%Z) / hx_of grid3 = 0
  /\ cell_pass grid3 zeros (ctx_of NONE NONE) zeros 1%Z <>
     - eps (ctx_of NONE NONE) *
       (zeros (1 - 1)%Z - 2 * zeros 1%Z + zeros (1 + 1)%Z) / hx_of grid3.
Proof.
  assert (E1 : cell_pass grid3 zeros (ctx_of NONE NONE) zeros 1%Z = -1).
  { rewrite cell_pass_entry. cbn. unfold cell_value. cbn.
    rewrite hx_of_grid3. unfold zeros. lra. }
  assert (E2 : - eps (ctx_of NONE NONE) *
       (zeros (1 - 1)%Z - 2 * zeros 1%Z + zeros (1 + 1)%Z) / hx_of grid3 = 0).
  { rewrite hx_of_grid3. unfold zeros. cbn. lra. }
  repeat split; try assumption. rewrite E1, E2. lra.
Qed.

(** ** Setup *)

(** The one check of [main] on its options: [eps <= 0] ends the run with
    code 2, before the grid is created. *)
Lemma main_setup_rejects_eps (eps0 : R) (limiter jac_limiter : LimiterType)
    (fd fdc : bool) (dm : PetscErrorCode + DMDALocalInfo) :
  eps0 <= 0 ->
  main_setup eps0 limiter jac_limiter fd fdc dm = inl 2%Z.
Proof.
  intros H. unfold main_setup, main_options.
  rewrite Rleb_true by lra. reflexivity.
Qed.

(** An error of the grid library is passed on. *)
Lemma main_setup_propagates (eps0 : R) (limiter jac_limiter : LimiterType)
    (fd fdc : bool) (e : PetscErrorCode) :
  0 < eps0 ->
  main_setup eps0 limiter jac_limiter fd fdc (inl e) = inl e.
Proof.
  intros H. unfold main_setup, main_options.
  rewrite Rleb_false by lra. reflexivity.
Qed.

Lemma xcoord_first (info : DMDALocalInfo) :
  (2 <= mx info)%Z -> xcoord info 0 = -1.
Proof. intros _. unfold xcoord. lra. Qed.

Lemma xcoord_last (info : DMDALocalInfo) :
  (2 <= mx info)%Z -> xcoord info (mx info - 1) = 1.
Proof.
  intros HN. unfold xcoord, hx_of.
  assert (IZR (mx info - 1) <> 0) by (apply not_0_IZR; lia).
  decimals. field. assumption.
Qed.

(** C5, as the code has it.  The setup of [main] has no test on the
    number of points N.  Its one check of its own is on [eps]: with
    [eps <= 0] it fails with code 2, whatever the grid.  With [eps > 0] it
    passes on an error of the grid library and otherwise succeeds on the
    grid as the library delivers it, whatever N is.  On a grid of N >= 2
    points the spacing is [2 / (N - 1)], point 0 lies at -1 and point N-1
    lies at 1. *)
Theorem main_setup_accepts_grid (eps0 : R) (limiter jac_limiter : LimiterType)
    (fd fdc : bool) (info : DMDALocalInfo) (e : PetscErrorCode) :
  (eps0 <= 0 ->
   forall dm : PetscErrorCode + DMDALocalInfo,
     main_setup eps0 limiter jac_limiter fd fdc dm = inl 2%Z)
  /\ (0 < eps0 ->
      main_setup eps0 limiter jac_limiter fd fdc (inl e) = inl e
      /\ exists user : AdCtx,
           main_setup eps0 limiter jac_limiter fd fdc (inr info)
             = inr (user, info)
           /\ eps user = eps0)
  /\ ((2 <= mx info)%Z ->
      hx_of info = 2 / (IZR (mx info) - 1)
      /\ xcoord info 0 = -1
      /\ xcoord info (mx info - 1) = 1).
Proof.
  split; [|split].
  - intros H dm. now apply main_setup_rejects_eps.
  - intros H. split; [now apply main_setup_propagates|].
    unfold main_setup, main_options. rewrite Rleb_false by lra.
    eexists; split; reflexivity.
  - intros HN. split; [|split].
    + unfold hx_of. rewrite minus_IZR. decimals. reflexivity.
    + now apply xcoord_first.
    + now apply xcoord_last.
Qed.

Lemma main_setup_accepts_grid_witness :
  (main_setup 0.01 NONE NONE false false (inl 77%Z) = inl 77%Z
   /\ exists user : AdCtx,
        main_setup 0.01 NONE NONE false false (inr grid5) = inr (user, grid5)
        /\ eps user = 0.01)
  /\ (hx_of grid5 = 2 / (IZR (mx grid5) - 1)
      /\ xcoord grid5 0 = -1
      /\ xcoord grid5 (mx grid5 - 1) = 1)
  /\ (forall dm : PetscErrorCode + DMDALocalInfo,
        main_setup (-1) NONE NONE false false dm = inl 2%Z).
Proof.
  split; [|split].
  - apply (proj1 (proj2 (main_setup_accepts_grid 0.01 NONE NONE false false
                           grid5 77%Z))). lra.
  - apply (proj2 (proj2 (main_setup_accepts_grid 0.01 NONE NONE false false
                           grid5 77%Z))). cbn; lia.
  - apply (proj1 (main_setup_accepts_grid (-1) NONE NONE false false
                    grid5 77%Z)). lra.
Defined.

(** C5, as stated, fails: handed a grid of one point (N < 2), the setup of
    [main] returns no error. *)
Lemma main_setup_one_point_grid :
  (mx grid1 < 2)%Z
  /\ forall e : PetscErrorCode,
       main_setup 0.01 NONE NONE false false (inr grid1) <> inl e.
Proof.
  split; [cbn; lia|].
  intros e. unfold main_setup, main_options.
  rewrite Rleb_false by lra. discriminate.
Qed.

(** ** What a residual entry reads *)

Section Locality.

Variable wind : R -> R.
Variable N : Z.
Variable usr : AdCtx.
Variables au au' : RealArray.

Lemma halo_needed_pos : (1 <= halo_needed usr <= 2)%Z.
Proof. unfold halo_needed. destruct (limiter_fcn usr) as [[|]|]; lia. Qed.

(** The flux at the E face of cell [i] reads cells [i] and [i+1], and with
    the van Leer limiter also [i-1] and [i+2], as far as they are inside
    the grid. *)
Lemma face_flux_ext (xs1 xm1 xs2 xm2 i : Z) :
  (0 <= i < N - 1)%Z ->
  (forall k : Z, (0 <= k < N)%Z ->
     (i - (halo_needed usr - 1) <= k <= i + halo_needed usr)%Z ->
     au k = au' k) ->
  face_flux wind (mkInfo N xs1 xm1) au usr i =
  face_flux wind (mkInfo N xs2 xm2) au' usr i.
Proof.
  intros Hi Hag. pose proof halo_needed_pos as Hw.
  assert (E0 : au i = au' i) by (apply Hag; lia).
  assert (E1 : au (i + 1)%Z = au' (i + 1)%Z) by (apply Hag; lia).
  unfold face_flux, face_u_up, face_u_dn, face_u_far, face_a, hx_of.
  cbn [mx]. decimals. rewrite E0, E1.
  unfold halo_needed in Hag.
  destruct (limiter_fcn usr) as [[|]|]; [reflexivity| |reflexivity].
  assert (Em : (i - 1 > 0)%Z -> au (i - 1)%Z = au' (i - 1)%Z)
    by (intros; apply Hag; lia).
  assert (Ep : (i + 2 < N - 1)%Z -> au (i + 2)%Z = au' (i + 2)%Z)
    by (intros; apply Hag; lia).
  destruct (Z.ltb_spec (i + 2) (N - 1)) as [L2|L2];
    [rewrite (Ep L2)|];
    (destruct (Z.ltb_spec 0 (i - 1)) as [L1|L1];
     rewrite (Z.gtb_ltb (i - 1) 0);
     [rewrite Em by lia; destruct (Z.ltb_spec 0 (i - 1)); try lia
     |destruct (Z.ltb_spec 0 (i - 1)); try lia]);
    reflexivity.
Qed.

Lemma cell_value_ext (xs1 xm1 xs2 xm2 j : Z) :
  (0 <= j < N)%Z ->
  (forall k : Z, (0 <= k < N)%Z -> (j - 1 <= k <= j + 1)%Z -> au k = au' k) ->
  cell_value (mkInfo N xs1 xm1) au usr j =
  cell_value (mkInfo N xs2 xm2) au' usr j.
Proof.
  intros Hj Hag.
  assert (E0 : au j = au' j) by (apply Hag; lia).
  unfold cell_value, scdiag_of, hx_of. cbn [mx]. rewrite E0.
  ztests; try reflexivity;
    rewrite ?(Hag (j - 1)%Z) by lia; rewrite ?(Hag (j + 1)%Z) by lia;
    reflexivity.
Qed.

(** The residual of cell [j] reads the cells within [halo_needed] of it. *)
Lemma residual_at_ext (xs1 xm1 xs2 xm2 j : Z) :
  (0 <= j < N)%Z ->
  (forall k : Z, (0 <= k < N)%Z ->
     (j - halo_needed usr <= k <= j + halo_needed usr)%Z -> au k = au' k) ->
  residual_at wind (mkInfo N xs1 xm1) au usr j =
  residual_at wind (mkInfo N xs2 xm2) au' usr j.
Proof.
  intros Hj Hag. pose proof halo_needed_pos as Hw.
  unfold residual_at. cbn [mx].
  rewrite (cell_value_ext xs1 xm1 xs2 xm2) by (auto; intros; apply Hag; lia).
  destruct (Z.ltb_spec 0 j), (Z.ltb_spec j (N - 1)); cbn [andb];
    try reflexivity.
  rewrite (face_flux_ext xs1 xm1 xs2 xm2 j)
    by (try lia; intros; apply Hag; lia).
  rewrite (face_flux_ext xs1 xm1 xs2 xm2 (j - 1))
    by (try lia; intros; apply Hag; lia).
  reflexivity.
Qed.

End Locality.

(** ** Workers against a single owner *)

Lemma contiguous_le (ws : list Worker) :
  forall lo hi : Z, contiguous lo hi ws = true -> (lo <= hi)%Z.
Proof.
  induction ws as [|w ws IH]; intros lo hi H; cbn in H.
  - apply Z.eqb_eq in H; lia.
  - apply andb_prop in H as [H1 H2]. apply andb_prop in H1 as [_ H1].
    apply Z.leb_le in H1. apply IH in H2. lia.
Qed.

Lemma owned_values_split (F : RealArray) (lo n m : Z) :
  (0 <= n)%Z -> (0 <= m)%Z ->
  owned_values F lo (n + m) = owned_values F lo n ++ owned_values F (lo + n) m.
Proof.
  intros Hn Hm. unfold owned_values.
  rewrite Z2Nat.inj_add, Zrange_app, map_app, Z2Nat.id by assumption.
  reflexivity.
Qed.

(** An owned cell gets the same residual from its worker as from a single
    owner of the whole grid, when the worker's local array agrees with the
    global vector on a halo of the needed width. *)
Lemma worker_cell_agrees (wind : R -> R) (N : Z) (usr : AdCtx)
    (u aF : RealArray) (w : Worker) (j : Z) :
  (2 <= N)%Z -> (0 <= w_xs w)%Z -> (w_xs w + w_xm w <= N)%Z ->
  halo_agrees (halo_needed usr) N u w ->
  (w_xs w <= j < w_xs w + w_xm w)%Z ->
  snd (FormFunctionLocal wind (worker_info N w) (w_au w) (w_aF w) usr) j =
  snd (FormFunctionLocal wind (mkInfo N 0 N) u aF usr) j.
Proof.
  intros HN Hlo Hhi Hag Hj.
  rewrite !FormFunctionLocal_owned
    by (unfold owned, worker_info; cbn [mx xs xm]; lia).
  unfold worker_info. apply residual_at_ext; [lia|].
  intros k Hk Hr. apply Hag; lia.
Qed.

Lemma workers_from (wind : R -> R) (N : Z) (usr : AdCtx) (u aF : RealArray)
    (ws : list Worker) :
  (2 <= N)%Z ->
  Forall (halo_agrees (halo_needed usr) N u) ws ->
  forall lo : Z, (0 <= lo)%Z -> contiguous lo N ws = true ->
  distributed_residual wind N usr ws =
  owned_values (snd (FormFunctionLocal wind (mkInfo N 0 N) u aF usr))
    lo (N - lo).
Proof.
  intros HN Hall. induction Hall as [|w ws Hw Hws IH]; intros lo Hlo Hc.
  - cbn in Hc. apply Z.eqb_eq in Hc. subst lo.
    rewrite Z.sub_diag. reflexivity.
  - cbn in Hc. apply andb_prop in Hc as [Hc1 Hc2].
    apply andb_prop in Hc1 as [Hxs Hxm].
    apply Z.eqb_eq in Hxs. apply Z.leb_le in Hxm.
    pose proof (contiguous_le _ _ _ Hc2) as Hle.
    unfold distributed_residual in *. cbn [map concat].
    rewrite (IH (lo + w_xm w)%Z) by (lia || assumption).
    replace (N - lo)%Z with (w_xm w + (N - (lo + w_xm w)))%Z by lia.
    rewrite owned_values_split by lia. f_equal.
    unfold worker_residual, owned_values. rewrite Hxs.
    apply map_ext_in. intros j Hj. apply in_Zrange in Hj.
    apply worker_cell_agrees; try assumption; lia.
Qed.

(** C2, as the code has it.  On a grid of N >= 2 points split into
    contiguous owned ranges, the residual pieces of the workers, one after
    the other, are the residual that a single owner of [0,N) computes, for
    every wind, limiter and trial solution, provided each worker's local
    array agrees with the global vector on its owned range and on a halo
    of width 2 when the limiter is van Leer, of width 1 otherwise. *)
Theorem distributed_residual_is_serial (wind : R -> R) (N : Z) (usr : AdCtx)
    (u aF : RealArray) (ws : list Worker) :
  (2 <= N)%Z ->
  contiguous 0 N ws = true ->
  Forall (halo_agrees (halo_needed usr) N u) ws ->
  distributed_residual wind N usr ws = serial_residual wind N usr u aF.
Proof.
  intros HN Hc Hall. unfold serial_residual.
  rewrite (workers_from wind N usr u aF ws HN Hall 0) by (lia || assumption).
  now rewrite Z.sub_0_r.
Qed.

Lemma distributed_residual_is_serial_witness :
  distributed_residual wind_a 5 (ctx_of VANLEER NONE) [w_left; w_right2] =
  serial_residual wind_a 5 (ctx_of VANLEER NONE) u_step zeros.
Proof.
  apply (distributed_residual_is_serial wind_a 5 (ctx_of VANLEER NONE)
           u_step zeros [w_left; w_right2]).
  - lia.
  - reflexivity.
  - repeat constructor; intros j Hj Hr; cbn in *; try reflexivity.
    destruct (Z.ltb_spec j 1); [lia | reflexivity].
Defined.

Lemma vanleer_1 : vanleer 1 = 1 / 2.
Proof.
  unfold vanleer. rewrite Rabs_R1. decimals. lra.
Qed.

Lemma vanleer_m1 : vanleer (-1) = 0.
Proof.
  unfold vanleer.
  assert (E : Rabs (-1) = 1) by (unfold Rabs; destruct (Rcase_abs (-1)); lra).
  rewrite E. decimals. lra.
Qed.

(** The flux at face 2 of the five-point grid under van Leer, for an array
    that holds 1 and 0 at cells 2 and 3: it depends on the value at
    cell 1. *)
Lemma face2_flux_vanleer (info : DMDALocalInfo) (au : RealArray) :
  mx info = 5%Z -> au 2%Z = 1 -> au 3%Z = 0 ->
  flux (face_flux wind_a info au (ctx_of VANLEER NONE) 2) =
  1 + vanleer (au 1%Z - 1) * (-1).
Proof.
  intros Hmx E2 E3.
  unfold face_flux, face_u_up, face_u_dn, face_u_far, face_a, wind_a.
  rewrite Hmx. cbn [ctx_of limiterptr limiter_fcn call].
  rtests. change (2 =? 0)%Z with false. change (2 + 1 <? 5 - 1)%Z with true.
  change (2 - 1 >? 0)%Z with true. change (2 + 1)%Z with 3%Z.
  change (2 - 1)%Z with 1%Z. rewrite E2, E3.
  rtests. cbn [flux].
  replace ((1 - au 1%Z) / (0 - 1)) with (au 1%Z - 1) by (field; lra).
  decimals. lra.
Qed.

Lemma face3_flux_zero (info : DMDALocalInfo) (au : RealArray) :
  mx info = 5%Z -> au 3%Z = 0 ->
  flux (face_flux wind_a info au (ctx_of VANLEER NONE) 3) = 0.
Proof.
  intros Hmx E3.
  unfold face_flux, face_u_up, face_u_dn, face_a, wind_a.
  rewrite Hmx. cbn [ctx_of limiterptr limiter_fcn call].
  rtests. change (3 =? 0)%Z with false. change (3 + 1 <? 5 - 1)%Z with false.
  rewrite E3. rtests. cbn [flux]. decimals. lra.
Qed.

(** C2, as stated, fails for the van Leer limiter with a halo of width 1.
    Five points, [eps = 1], wind 1, trial solution 1, 2, 1, 0, 0, workers
    owning [0,3) and [3,5).  The right worker's local array agrees with the
    trial solution on cells 2..4 (owned cells and one ghost cell) and holds
    0 at cell 1.  Its flux at face 2 is 1, the single owner's is 1/2, so
    the residual of cell 3 is -3 for the worker and -5/2 for the single
    owner. *)
Lemma vanleer_needs_two_ghost_cells :
  contiguous 0 5 [w_left; w_right] = true
  /\ Forall (halo_agrees 1 5 u_step) [w_left; w_right]
  /\ snd (FormFunctionLocal wind_a (worker_info 5 w_right) (w_au w_right)
            (w_aF w_right) (ctx_of VANLEER NONE)) 3%Z = -3
  /\ snd (FormFunctionLocal wind_a (mkInfo 5 0 5) u_step zeros
            (ctx_of VANLEER NONE)) 3%Z = -5 / 2
  /\ distributed_residual wind_a 5 (ctx_of VANLEER NONE) [w_left; w_right] <>
     serial_residual wind_a 5 (ctx_of VANLEER NONE) u_step zeros.
Proof.
  assert (Hh : forall xs0 xm0, hx_of (mkInfo 5 xs0 xm0) = 1 / 2).
  { intros; unfold hx_of; cbn. lra. }
  assert (Ew : snd (FormFunctionLocal wind_a (worker_info 5 w_right)
                      (w_au w_right) (w_aF w_right) (ctx_of VANLEER NONE)) 3%Z
               = -3).
  { rewrite FormFunctionLocal_owned
      by (unfold owned, worker_info, w_right; cbn; lia).
    unfold residual_at. unfold worker_info at 2. cbn [mx andb Z.ltb].
    change ((0 <? 3) && (3 <? 5 - 1))%Z with true. cbv iota.
    change (3 - 1)%Z with 2%Z.
    rewrite face2_flux_vanleer, face3_flux_zero by reflexivity.
    cbn [w_right w_au]. change (1 <? 2)%Z with true. cbv iota.
    replace (0 - 1) with (-1) by lra. rewrite vanleer_m1.
    unfold cell_value, worker_info. rewrite Hh. cbn. lra. }
  assert (Es : snd (FormFunctionLocal wind_a (mkInfo 5 0 5) u_step zeros
                      (ctx_of VANLEER NONE)) 3%Z = -5 / 2).
  { rewrite FormFunctionLocal_owned by (unfold owned; cbn; lia).
    unfold residual_at. cbn [mx].
    change ((0 <? 3) && (3 <? 5 - 1))%Z with true. cbv iota.
    change (3 - 1)%Z with 2%Z.
    rewrite face2_flux_vanleer, face3_flux_zero by reflexivity.
    change (u_step 1%Z) with 2. replace (2 - 1) with 1 by lra.
    rewrite vanleer_1.
    unfold cell_value. rewrite Hh. cbn. lra. }
  split; [reflexivity|]. split; [|split; [exact Ew|split; [exact Es|]]].
  - repeat constructor; intros j Hj Hr; cbn in *; try reflexivity.
    destruct (Z.ltb_spec j 2); [lia | reflexivity].
  - intros H.
    assert (L : nth 3 (distributed_residual wind_a 5 (ctx_of VANLEER NONE)
                         [w_left; w_right]) 0 =
                snd (FormFunctionLocal wind_a (worker_info 5 w_right)
                       (w_au w_right) (w_aF w_right) (ctx_of VANLEER NONE))
                  3%Z) by reflexivity.
    assert (M : nth 3 (serial_residual wind_a 5 (ctx_of VANLEER NONE)
                         u_step zeros) 0 =
                snd (FormFunctionLocal wind_a (mkInfo 5 0 5) u_step zeros
                       (ctx_of VANLEER NONE)) 3%Z) by reflexivity.
    rewrite H, M, Es in L. rewrite Ew in L. lra.
Qed.

(** ** The residual is affine for the limiters none and centered *)

Section Linearisation.

Variable wind : R -> R.
Variable info : DMDALocalInfo.
Variable usr : AdCtx.

(** Skipping the correction when the two values are equal changes nothing
    for the centered limiter. *)
Lemma face_flux_centered (au : RealArray) (i : Z) :
  limiter_fcn usr = Some addr_centered ->
  flux (face_flux wind info au usr i) =
  face_a wind info i * face_u_up wind info au i
  + face_a wind info i * (1 / 2)
    * (face_u_dn wind info au i - face_u_up wind info au i).
Proof.
  intros Hl. unfold face_flux. rewrite Hl. unfold Rneqb.
  destruct (Req_dec_T (face_u_dn wind info au i) (face_u_up wind info au i))
    as [E|NE]; cbn [flux call]; unfold centered; decimals.
  - rewrite E. ring.
  - ring.
Qed.

Lemma face_flux_none (au : RealArray) (i : Z) :
  limiter_fcn usr = None ->
  flux (face_flux wind info au usr i) =
  face_a wind info i * face_u_up wind info au i.
Proof. intros Hl. unfold face_flux. now rewrite Hl. Qed.

Lemma jac_row_boundary (i c : Z) :
  i = 0%Z \/ i = (mx info - 1)%Z ->
  jac_row wind info usr i c =
  if (c =? i)%Z then scdiag_of info usr else 0.
Proof.
  intros Hi. unfold jac_row, jac_body.
  replace ((i =? 0) || (i =? mx info - 1))%Z with true
    by (destruct Hi; subst i; rewrite ?Z.eqb_refl, ?orb_true_r; reflexivity).
  rewrite MatSetValues_entry, Z.eqb_refl. cbn [row_sum].
  destruct (c =? i)%Z; lra.
Qed.

End Linearisation.

Section Consistency.

Variable wind : R -> R.
Variable info : DMDALocalInfo.
Variable usr : AdCtx.

(** Changing entry [j] of the trial solution to [t] changes the residual
    of cell [i] by [jac_row i j * (t - u_j)], for the limiter none with any
    wind, and for the limiter centered when the wind at the first face does
    not blow towards the left boundary. *)
Lemma residual_affine (au : RealArray) (i j : Z) (t : R) :
  (2 <= mx info)%Z -> (0 <= i < mx info)%Z ->
  limiter_fcn usr = None \/
    (limiter_fcn usr = Some addr_centered /\ face_a wind info 0 >= 0) ->
  jac_limiter_fcn usr = limiter_fcn usr ->
  residual_at wind info (aset au j t) usr i =
  residual_at wind info au usr i + jac_row wind info usr i j * (t - au j).
Proof.
  intros HN Hi Hl Hjl. pose proof (hx_of_pos info HN) as Hh.
  destruct (Z.eq_dec i 0) as [Z0|NZ0];
    [|destruct (Z.eq_dec i (mx info - 1)) as [ZN|NZN]].
  - rewrite jac_row_boundary by auto. unfold residual_at, cell_value, aset.
    subst i. zprune; subst; lra.
  - rewrite jac_row_boundary by auto. unfold residual_at, cell_value, aset.
    subst i. zprune; subst; lra.
  - unfold residual_at.
    replace ((0 <? i) && (i <? mx info - 1))%Z with true
      by (symmetry; apply andb_true_intro; split; apply Z.ltb_lt; lia).
    rewrite !cell_value_interior by lia.
    unfold jac_row, jac_body.
    replace ((i =? 0) || (i =? mx info - 1))%Z with false
      by (symmetry; apply orb_false_intro; apply Z.eqb_neq; lia).
    rewrite Hjl. rewrite west_face_is_east_face.
    fold (face_a wind info i). fold (face_a wind info (i - 1)).
    destruct Hl as [Hl|[Hl Hw]].
    + rewrite !face_flux_none by assumption. rewrite Hl.
      rewrite !MatSetValues_entry, Z.eqb_refl. unfold face_u_up.
      decimals. replace (i - 1 + 1)%Z with i by lia.
      destruct (Rgeb (face_a wind info i) 0),
        (Rgeb (face_a wind info (i - 1)) 0);
        cbn [row_sum fst snd]; unfold aset; zprune; subst; field; lra.
    + rewrite !face_flux_centered by assumption. rewrite Hl.
      rewrite !MatSetValues_entry, Z.eqb_refl. unfold face_u_up, face_u_dn.
      decimals. replace (i - 1 + 1)%Z with i by lia.
      destruct (Rgeb (face_a wind info i) 0) eqn:GE,
        (Rgeb (face_a wind info (i - 1)) 0) eqn:GW;
        cbn [row_sum fst snd]; unfold aset; zprune; subst;
        try (field; lra).
      all: exfalso; change (1 - 1)%Z with 0%Z in GW;
        rewrite Rgeb_true in GW by exact Hw; discriminate.
Qed.

End Consistency.

(** A function that is affine around [x] with slope [l] has derivative [l]
    at [x]. *)
Lemma affine_derivative (f : R -> R) (x l : R) :
  (forall t : R, f t = f x + l * (t - x)) -> derivable_pt_lim f x l.
Proof.
  intros H e He. exists (mkposreal 1 Rlt_0_1). intros h Hh _.
  rewrite (H (x + h)).
  replace ((f x + l * (x + h - x) - f x) / h - l) with 0 by (field; exact Hh).
  rewrite Rabs_R0. exact He.
Qed.

Lemma wind_a_first_face (info : DMDALocalInfo) : face_a wind_a info 0 >= 0.
Proof. unfold face_a, wind_a. lra. Qed.

(** C1.  On a grid of at least two points, with the same limiter, none or
    centered, on both sides, and for every [eps], trial solution and owned
    row [i]: the entry [J[i][j]] that the Jacobian evaluator assembles is
    the partial derivative with respect to [u_j] of component [i] of the
    residual that the residual evaluator computes; the residual is even
    affine in [u_j] with that slope. *)
Theorem jacobian_is_derivative_of_residual (info : DMDALocalInfo)
    (au aF : RealArray) (P : Mat) (usr : AdCtx) (i j : Z) :
  grid_ok info -> owned info i ->
  limiter_fcn usr = None \/ limiter_fcn usr = Some addr_centered ->
  jac_limiter_fcn usr = limiter_fcn usr ->
  derivable_pt_lim
    (fun t => snd (FormFunctionLocal wind_a info (aset au j t) aF usr) i)
    (au j)
    (snd (FormJacobianLocal wind_a info au P usr) i j)
  /\ forall t : R,
       snd (FormFunctionLocal wind_a info (aset au j t) aF usr) i =
       snd (FormFunctionLocal wind_a info au aF usr) i
       + snd (FormJacobianLocal wind_a info au P usr) i j * (t - au j).
Proof.
  intros (HN & H0 & Hm & Hle) Hown Hl Hjl.
  assert (Hi : (0 <= i < mx info)%Z) by (unfold owned in Hown; lia).
  assert (Hl' : limiter_fcn usr = None \/
                (limiter_fcn usr = Some addr_centered
                 /\ face_a wind_a info 0 >= 0)).
  { destruct Hl as [Hl|Hl]; [left; exact Hl|right; split; [exact Hl|]].
    apply wind_a_first_face. }
  assert (HJ : snd (FormJacobianLocal wind_a info au P usr) i j =
               jac_row wind_a info usr i j).
  { rewrite FormJacobianLocal_entry
      by (rewrite Hjl; destruct Hl as [Hl|Hl]; rewrite Hl; discriminate).
    unfold owned in Hown. zprune. reflexivity. }
  assert (HF : forall t : R,
             snd (FormFunctionLocal wind_a info (aset au j t) aF usr) i =
             snd (FormFunctionLocal wind_a info au aF usr) i
             + snd (FormJacobianLocal wind_a info au P usr) i j * (t - au j)).
  { intros t. rewrite HJ, !FormFunctionLocal_owned by assumption.
    now apply residual_affine. }
  split; [|exact HF].
  apply affine_derivative. intros t.
  rewrite (HF t), (HF (au j)). ring.
Qed.

Lemma jacobian_is_derivative_of_residual_witness :
  derivable_pt_lim
    (fun t =>
       snd (FormFunctionLocal wind_a grid5 (aset u_step 2 t) zeros
              (ctx_of CENTERED CENTERED)) 3%Z)
    (u_step 2%Z)
    (snd (FormJacobianLocal wind_a grid5 u_step zeros_mat
            (ctx_of CENTERED CENTERED)) 3%Z 2%Z)
  /\ forall t : R,
       snd (FormFunctionLocal wind_a grid5 (aset u_step 2 t) zeros
              (ctx_of CENTERED CENTERED)) 3%Z =
       snd (FormFunctionLocal wind_a grid5 u_step zeros
              (ctx_of CENTERED CENTERED)) 3%Z
       + snd (FormJacobianLocal wind_a grid5 u_step zeros_mat
                (ctx_of CENTERED CENTERED)) 3%Z 2%Z * (t - u_step 2%Z).
Proof.
  apply (jacobian_is_derivative_of_residual grid5 u_step zeros zeros_mat
           (ctx_of CENTERED CENTERED) 3 2).
  - unfold grid_ok; cbn; lia.
  - unfold owned; cbn; lia.
  - right; reflexivity.
  - reflexivity.
Defined.

(** ** Pure diffusion *)

Section StillAir.

Variable wind : R -> R.
Hypothesis wind_zero : forall x : R, wind x = 0.

Lemma still_flux (info : DMDALocalInfo) (au : RealArray) (usr : AdCtx)
    (i : Z) :
  limiter_fcn usr = None -> flux (face_flux wind info au usr i) = 0.
Proof.
  intros Hl. rewrite face_flux_none by assumption.
  unfold face_a. rewrite wind_zero. ring.
Qed.

(** Without wind the rows away from the boundary hold the second-difference
    stencil, for the Jacobian-side limiters none and centered alike. *)
Lemma still_jac_row (info : DMDALocalInfo) (usr : AdCtx) (r c : Z) :
  (2 <= mx info)%Z -> (1 < r < mx info - 2)%Z ->
  jac_limiter_fcn usr <> Some addr_vanleer ->
  jac_row wind info usr r c =
  if (c =? r)%Z then 2 * eps usr / hx_of info
  else if ((c =? r - 1) || (c =? r + 1))%Z then - eps usr / hx_of info
  else 0.
Proof.
  intros HN Hr Hjl. pose proof (hx_of_pos info HN) as Hh.
  unfold jac_row, jac_body. rewrite !wind_zero.
  rewrite (Rgeb_true 0 0.0) by lra.
  replace ((r =? 0) || (r =? mx info - 1))%Z with false
    by (symmetry; apply orb_false_intro; apply Z.eqb_neq; lia).
  destruct (jac_limiter_fcn usr) as [[|]|]; try congruence;
    rewrite !MatSetValues_entry, Z.eqb_refl; cbn [row_sum fst snd];
    decimals; zprune; field; lra.
Qed.

End StillAir.

(** C7, as the code has it.  With a wind speed that is zero everywhere and
    the limiter none on both sides, on a grid of at least two points: the
    residual of every owned interior cell [i] is
    [- eps (uW - 2 u_i + uE) / h], where [uW] is [u_(i-1)], but the
    boundary value 1 when [i = 1], and [uE] is [u_(i+1)], but the boundary
    value 0 when [i = N-2]; and every owned row [r] with [1 < r < N-2] of
    the assembled matrix holds [2 eps / h] on the diagonal, [- eps / h]
    next to it and 0 elsewhere. *)
Theorem pure_diffusion (wind : R -> R) (info : DMDALocalInfo)
    (au aF u : RealArray) (P : Mat) (usr : AdCtx) :
  (forall x : R, wind x = 0) ->
  limiter_fcn usr = None -> jac_limiter_fcn usr = None ->
  grid_ok info ->
  (forall i : Z,
     owned info i -> (0 < i < mx info - 1)%Z ->
     snd (FormFunctionLocal wind info au aF usr) i =
     - eps usr *
       ((if (i =? 1)%Z then 1 else au (i - 1)%Z) - 2 * au i
        + (if (i =? mx info - 2)%Z then 0 else au (i + 1)%Z)) / hx_of info)
  /\ (forall r : Z,
        owned info r -> (1 < r < mx info - 2)%Z ->
        forall c : Z,
          snd (FormJacobianLocal wind info u P usr) r c =
          if (c =? r)%Z then 2 * eps usr / hx_of info
          else if ((c =? r - 1) || (c =? r + 1))%Z
               then - eps usr / hx_of info
          else 0).
Proof.
  intros Hw Hl Hjl (HN & H0 & Hm & Hle). split.
  - intros i Hi Hii.
    rewrite FormFunctionLocal_owned by (assumption || lia).
    unfold residual_at. rewrite !still_flux by assumption.
    rewrite cell_value_interior by assumption.
    destruct ((0 <? i) && (i <? mx info - 1))%Z; lra.
  - intros r Hr Hri c.
    rewrite FormJacobianLocal_entry by (rewrite Hjl; discriminate).
    unfold owned in Hr.
    replace ((xs info <=? r) && (r <? xs info + xm info))%Z with true
      by (symmetry; apply andb_true_intro; split;
          [apply Z.leb_le | apply Z.ltb_lt]; lia).
    apply still_jac_row; try assumption. rewrite Hjl; discriminate.
Qed.

Lemma pure_diffusion_witness :
  snd (FormFunctionLocal still_air grid3 zeros zeros (ctx_of NONE NONE)) 1%Z =
    - eps (ctx_of NONE NONE) *
      ((if (1 =? 1)%Z then 1 else zeros (1 - 1)%Z) - 2 * zeros 1%Z
       + (if (1 =? mx grid3 - 2)%Z then 0 else zeros (1 + 1)%Z))
      / hx_of grid3
  /\ forall c : Z,
       snd (FormJacobianLocal still_air grid5 u_step zeros_mat
              (ctx_of NONE NONE)) 2%Z c =
       if (c =? 2)%Z then 2 * eps (ctx_of NONE NONE) / hx_of grid5
       else if ((c =? 2 - 1) || (c =? 2 + 1))%Z
            then - eps (ctx_of NONE NONE) / hx_of grid5
       else 0.
Proof.
  split.
  - pose proof (pure_diffusion still_air grid3 zeros zeros zeros zeros_mat
                  (ctx_of NONE NONE)) as H.
    assert (G : grid_ok grid3) by (unfold grid_ok; cbn; lia).
    specialize (H (fun x => eq_refl) eq_refl eq_refl G).
    apply (proj1 H).
    + unfold owned; cbn; lia.
    + cbn; lia.
  - pose proof (pure_diffusion still_air grid5 u_step zeros u_step zeros_mat
                  (ctx_of NONE NONE)) as H.
    assert (G : grid_ok grid5) by (unfold grid_ok; cbn; lia).
    specialize (H (fun x => eq_refl) eq_refl eq_refl G).
    apply (proj2 H).
    + unfold owned; cbn; lia.
    + cbn; lia.
Defined.

(** C7, as stated, fails next to a boundary: without wind, on three points
    with [eps = 1], limiter none and the zero array, the residual of cell 1
    is -1 (the boundary value 1 stands for the W neighbour), while the
    second difference of the array values gives 0. *)
Lemma pure_diffusion_raw_neighbours_fails :
  snd (FormFunctionLocal still_air grid3 zeros zeros (ctx_of NONE NONE)) 1%Z
    = -1
  /\ - eps (ctx_of NONE NONE) *
       (zeros (1 - 1)%Z - 2 * zeros 1%Z + zeros (1 + 1)%Z) / hx_of grid3 = 0
  /\ snd (FormFunctionLocal still_air grid3 zeros zeros (ctx_of NONE NONE)) 1%Z
     <> - eps (ctx_of NONE NONE) *
          (zeros (1 - 1)%Z - 2 * zeros 1%Z + zeros (1 + 1)%Z) / hx_of grid3.
Proof.
  assert (E1 : snd (FormFunctionLocal still_air grid3 zeros zeros
                      (ctx_of NONE NONE)) 1%Z = -1).
  { rewrite FormFunctionLocal_owned by (unfold owned; cbn; lia).
    unfold residual_at. rewrite !still_flux by reflexivity.
    rewrite cell_value_interior by (cbn; lia).
    rewrite hx_of_grid3. unfold zeros. cbn. lra. }
  assert (E2 : - eps (ctx_of NONE NONE) *
       (zeros (1 - 1)%Z - 2 * zeros 1%Z + zeros (1 + 1)%Z) / hx_of grid3 = 0).
  { rewrite hx_of_grid3. unfold zeros. cbn. lra. }
  repeat split; try assumption. rewrite E1, E2. lra.
Qed.

(** * Further properties of the program *)

(** ** The limiters *)

Lemma vanleer_nonpos (theta : R) : theta <= 0 -> vanleer theta = 0.
Proof.
  intros H. unfold vanleer. rewrite Rabs_left1 by assumption.
  decimals. unfold Rdiv. replace (theta + - theta) with 0 by ring. ring.
Qed.

Lemma vanleer_nonneg (theta : R) :
  0 <= theta -> vanleer theta = theta / (1 + theta).
Proof.
  intros H. unfold vanleer. rewrite Rabs_right by lra.
  decimals. field. lra.
Qed.

(** X1.  The van Leer limiter takes its values in [0,1), is at most
    [theta] for [theta >= 0], and vanishes for [theta <= 0]. *)
Theorem vanleer_range (theta : R) :
  0 <= vanleer theta < 1
  /\ (theta <= 0 -> vanleer theta = 0)
  /\ (0 <= theta -> vanleer theta <= theta).
Proof.
  assert (Hpos : forall t : R, 0 <= t ->
            0 <= t / (1 + t) < 1 /\ t / (1 + t) <= t).
  { intros t Ht. assert (0 < 1 + t) by lra.
    assert (E : t / (1 + t) = 1 - / (1 + t)) by (field; lra).
    assert (0 < / (1 + t)) by (apply Rinv_0_lt_compat; lra).
    assert (/ (1 + t) <= 1).
    { rewrite <- Rinv_1. apply Rinv_le_contravar; lra. }
    split; [split|].
    - rewrite E. lra.
    - rewrite E. lra.
    - unfold Rdiv. nra. }
  split; [|split].
  - destruct (Rle_dec theta 0) as [Hn|Hp].
    + rewrite vanleer_nonpos by assumption. lra.
    + rewrite vanleer_nonneg by lra. apply Hpos; lra.
  - apply vanleer_nonpos.
  - intros H. rewrite vanleer_nonneg by assumption. apply Hpos; assumption.
Qed.

Lemma vanleer_range_witness :
  vanleer (-3) = 0 /\ vanleer 3 <= 3.
Proof.
  split.
  - apply (proj1 (proj2 (vanleer_range (-3)))). lra.
  - apply (proj2 (proj2 (vanleer_range 3))). lra.
Defined.

(** X2.  The symmetry of the van Leer limiter: for [theta > 0],
    [psi(theta) = theta * psi(1 / theta)], so that forward and backward
    gradients are limited alike. *)
Theorem vanleer_symmetry (theta : R) :
  0 < theta -> vanleer theta = theta * vanleer (1 / theta).
Proof.
  intros H.
  assert (0 < 1 / theta) by (apply Rdiv_lt_0_compat; lra).
  rewrite !vanleer_nonneg by lra. field. split; lra.
Qed.

Lemma vanleer_symmetry_witness : vanleer 4 = 4 * vanleer (1 / 4).
Proof. apply (vanleer_symmetry 4). lra. Defined.

(** X3.  The van Leer limiter is nondecreasing. *)
Theorem vanleer_monotone (s t : R) : s <= t -> vanleer s <= vanleer t.
Proof.
  intros H. destruct (Rle_dec s 0) as [Hs|Hs].
  - rewrite (vanleer_nonpos s) by assumption. apply vanleer_range.
  - rewrite !vanleer_nonneg by lra.
    assert (E : forall x : R, 0 <= x -> x / (1 + x) = 1 - / (1 + x))
      by (intros; field; lra).
    rewrite !E by lra.
    assert (/ (1 + t) <= / (1 + s)) by (apply Rinv_le_contravar; lra).
    lra.
Qed.

Lemma vanleer_monotone_witness : vanleer 1 <= vanleer 2.
Proof. apply (vanleer_monotone 1 2). lra. Defined.

(** ** The flux at a face, continued *)

Lemma call_range (f : LimiterPtr) (theta : R) : 0 <= call f theta < 1.
Proof.
  destruct f; cbn [call].
  - unfold centered. lra.
  - apply vanleer_range.
Qed.

(** X4.  For every wind, limiter and array, the flux at a face is the wind
    speed times a value between the upwind and the downwind value: there is
    a weight [psi] in [0,1) with
    [flux = a * (u_up + psi * (u_dn - u_up))]. *)
Theorem face_flux_between (wind : R -> R) (info : DMDALocalInfo)
    (au : RealArray) (usr : AdCtx) (i : Z) :
  exists psi : R,
    0 <= psi < 1
    /\ flux (face_flux wind info au usr i) =
       face_a wind info i *
       (face_u_up wind info au i
        + psi * (face_u_dn wind info au i - face_u_up wind info au i)).
Proof.
  unfold face_flux. destruct (limiter_fcn usr) as [f|].
  - destruct (Rneqb (face_u_dn wind info au i) (face_u_up wind info au i)).
    + lazymatch goal with
      | |- context [call f ?t] => exists (call f t)
      end.
      split; [apply call_range|]. cbn [flux]. ring.
    + exists 0. split; [lra|]. cbn [flux]. ring.
  - exists 0. split; [lra|]. cbn [flux]. ring.
Qed.

Lemma ratio_nonpos (n d : R) : d <> 0 -> n * d <= 0 -> n / d <= 0.
Proof.
  intros Hd H.
  assert (E : n / d = n * d * (/ d * / d)) by (field; assumption).
  assert (0 < / d * / d).
  { assert (/ d <> 0) by (apply Rinv_neq_0_compat; assumption).
    nra. }
  rewrite E. nra.
Qed.

(** X5.  At a local extremum the van Leer limiter switches the correction
    off: when the gradient upwind of the face and the gradient across the
    face have opposite signs (or one of them is zero), the flux is the
    first-order upwind flux. *)
Theorem vanleer_flux_at_extremum (wind : R -> R) (info : DMDALocalInfo)
    (au : RealArray) (usr : AdCtx) (i : Z) :
  limiter_fcn usr = Some addr_vanleer ->
  (face_u_up wind info au i - face_u_far wind info au i)
  * (face_u_dn wind info au i - face_u_up wind info au i) <= 0 ->
  flux (face_flux wind info au usr i) =
  face_a wind info i * face_u_up wind info au i.
Proof.
  intros Hl Hs. unfold face_flux. rewrite Hl. unfold Rneqb.
  destruct (Req_dec_T (face_u_dn wind info au i) (face_u_up wind info au i))
    as [E|NE]; cbn [flux call]; [reflexivity|].
  rewrite vanleer_nonpos; [ring|].
  apply ratio_nonpos; [lra | exact Hs].
Qed.

Lemma vanleer_flux_at_extremum_witness :
  flux (face_flux wind_a grid5 u_step (ctx_of VANLEER NONE) 1) =
  face_a wind_a grid5 1 * face_u_up wind_a grid5 u_step 1.
Proof.
  apply (vanleer_flux_at_extremum wind_a grid5 u_step (ctx_of VANLEER NONE) 1).
  - reflexivity.
  - unfold face_u_up, face_u_dn, face_u_far, face_a, wind_a.
    rtests. cbn. lra.
Defined.

(** ** The residual evaluator, continued *)

(** X6.  The residual evaluator writes owned entries only: an entry of
    the residual array outside the owned range is returned as it was
    passed in, although the face loop starts one cell left of the range. *)
Theorem residual_leaves_unowned (wind : R -> R) (info : DMDALocalInfo)
    (au aF : RealArray) (usr : AdCtx) (j : Z) :
  ~ owned info j ->
  snd (FormFunctionLocal wind info au aF usr) j = aF j.
Proof.
  intros Hn. unfold owned in Hn. cbn [FormFunctionLocal snd].
  rewrite face_pass_entry, cell_pass_entry.
  unfold face_to_E, face_to_W. zprune; lra.
Qed.

Lemma residual_leaves_unowned_witness :
  snd (FormFunctionLocal wind_a (worker_info 5 w_right) (w_au w_right)
         u_step (ctx_of VANLEER NONE)) 2%Z = u_step 2%Z.
Proof.
  apply (residual_leaves_unowned wind_a (worker_info 5 w_right)
           (w_au w_right) u_step (ctx_of VANLEER NONE) 2).
  unfold owned; cbn; lia.
Defined.

(** X7.  An owned entry of the residual is computed afresh: it does not
    depend on what the residual array held before the call. *)
Theorem residual_recomputed (wind : R -> R) (info : DMDALocalInfo)
    (au aF aF' : RealArray) (usr : AdCtx) (j : Z) :
  owned info j ->
  snd (FormFunctionLocal wind info au aF usr) j =
  snd (FormFunctionLocal wind info au aF' usr) j.
Proof.
  intros [Hlo Hhi]. cbn [FormFunctionLocal snd].
  rewrite !face_pass_entry, !cell_pass_entry.
  zprune; reflexivity.
Qed.

Lemma residual_recomputed_witness :
  snd (FormFunctionLocal wind_a grid5 u_step zeros (ctx_of VANLEER NONE)) 2%Z =
  snd (FormFunctionLocal wind_a grid5 u_step u_step (ctx_of VANLEER NONE)) 2%Z.
Proof.
  apply (residual_recomputed wind_a grid5 u_step zeros u_step
           (ctx_of VANLEER NONE) 2).
  unfold owned; cbn; lia.
Defined.

Lemma face_a_wind_a (info : DMDALocalInfo) (i : Z) : face_a wind_a info i = 1.
Proof. unfold face_a, wind_a. lra. Qed.

(** The upwind and downwind values for the wind of the program. *)
Lemma face_u_up_wind_a (info : DMDALocalInfo) (au : RealArray) (i : Z) :
  face_u_up wind_a info au i = if (i =? 0)%Z then 1 else au i.
Proof.
  unfold face_u_up. rewrite face_a_wind_a, (Rgeb_true 1 0.0) by lra.
  decimals. reflexivity.
Qed.

Lemma face_u_dn_wind_a (info : DMDALocalInfo) (au : RealArray) (i : Z) :
  face_u_dn wind_a info au i =
  if (i + 1 <? mx info - 1)%Z then au (i + 1)%Z else 0.
Proof.
  unfold face_u_dn. rewrite face_a_wind_a, (Rgeb_true 1 0) by lra.
  decimals. reflexivity.
Qed.

(** X8.  First-order upwinding.  With the wind of the program and no
    limiter, the residual of an owned interior cell is
    [- eps (uW - 2 u_i + uE) / h + (u_i - uW)], where [uW], [uE] are the
    neighbour values, the Dirichlet values 1 and 0 standing for boundary
    nodes. *)
Theorem upwind_residual (info : DMDALocalInfo) (au aF : RealArray)
    (usr : AdCtx) (i : Z) :
  (2 <= mx info)%Z -> owned info i -> (0 < i < mx info - 1)%Z ->
  limiter_fcn usr = None ->
  snd (FormFunctionLocal wind_a info au aF usr) i =
  - eps usr * (west_value au i - 2 * au i + east_value info au i) / hx_of info
  + (au i - west_value au i).
Proof.
  intros HN Hown Hi Hl.
  rewrite FormFunctionLocal_owned by (assumption || lia).
  unfold residual_at. rewrite !face_flux_none by assumption.
  rewrite cell_value_interior by assumption.
  rewrite !face_a_wind_a, !face_u_up_wind_a.
  unfold west_value, east_value. zprune; subst;
    rewrite ?Z.sub_add; try lra;
    replace (i - 1 + 1)%Z with i by lia; lra.
Qed.

Lemma upwind_residual_witness :
  snd (FormFunctionLocal wind_a grid5 u_step zeros (ctx_of NONE NONE)) 2%Z =
  - eps (ctx_of NONE NONE) *
    (west_value u_step 2 - 2 * u_step 2%Z + east_value grid5 u_step 2)
    / hx_of grid5
  + (u_step 2%Z - west_value u_step 2).
Proof.
  apply (upwind_residual grid5 u_step zeros (ctx_of NONE NONE) 2).
  - cbn; lia.
  - unfold owned; cbn; lia.
  - cbn; lia.
  - reflexivity.
Defined.

(** X9.  With the wind of the program and the centered limiter, the
    advective part of the residual of an owned interior cell is the
    centered difference [(uE - uW) / 2] of the neighbour values, the
    Dirichlet values standing for boundary nodes. *)
Theorem centered_residual (info : DMDALocalInfo) (au aF : RealArray)
    (usr : AdCtx) (i : Z) :
  (2 <= mx info)%Z -> owned info i -> (0 < i < mx info - 1)%Z ->
  limiter_fcn usr = Some addr_centered ->
  snd (FormFunctionLocal wind_a info au aF usr) i =
  - eps usr * (west_value au i - 2 * au i + east_value info au i) / hx_of info
  + (east_value info au i - west_value au i) / 2.
Proof.
  intros HN Hown Hi Hl.
  rewrite FormFunctionLocal_owned by (assumption || lia).
  unfold residual_at. rewrite !face_flux_centered by assumption.
  rewrite cell_value_interior by assumption.
  rewrite !face_a_wind_a, !face_u_up_wind_a, !face_u_dn_wind_a.
  unfold west_value, east_value. zprune; subst;
    rewrite ?Z.sub_add; try lra;
    replace (i - 1 + 1)%Z with i by lia; lra.
Qed.

Lemma centered_residual_witness :
  snd (FormFunctionLocal wind_a grid5 u_step zeros
         (ctx_of CENTERED CENTERED)) 2%Z =
  - eps (ctx_of CENTERED CENTERED) *
    (west_value u_step 2 - 2 * u_step 2%Z + east_value grid5 u_step 2)
    / hx_of grid5
  + (east_value grid5 u_step 2 - west_value u_step 2) / 2.
Proof.
  apply (centered_residual grid5 u_step zeros (ctx_of CENTERED CENTERED) 2).
  - cbn; lia.
  - unfold owned; cbn; lia.
  - cbn; lia.
  - reflexivity.
Defined.

Lemma scdiag_of_pos (info : DMDALocalInfo) (usr : AdCtx) :
  (2 <= mx info)%Z -> 0 < eps usr -> 0 < scdiag_of info usr.
Proof.
  intros HN He. pose proof (hx_of_pos info HN) as Hh.
  unfold scdiag_of. decimals.
  assert (0 < 2 * eps usr / hx_of info)
    by (apply Rdiv_lt_0_compat; lra).
  lra.
Qed.

(** X10.  With [eps > 0] on a grid of at least two points, the residual of
    an owned boundary node vanishes exactly when the trial solution takes
    the Dirichlet value there (1 at node 0, 0 at node N-1). *)
Theorem boundary_residual_zero_iff (wind : R -> R) (info : DMDALocalInfo)
    (au aF : RealArray) (usr : AdCtx) (j : Z) :
  (2 <= mx info)%Z -> 0 < eps usr -> owned info j ->
  j = 0%Z \/ j = (mx info - 1)%Z ->
  snd (FormFunctionLocal wind info au aF usr) j = 0
  <-> au j = if (j =? 0)%Z then 1 else 0.
Proof.
  intros HN He Hown Hj.
  pose proof (scdiag_of_pos info usr HN He) as Hs.
  assert (E : snd (FormFunctionLocal wind info au aF usr) j =
              scdiag_of info usr * (au j - if (j =? 0)%Z then 1 else 0)).
  { rewrite FormFunctionLocal_owned
      by (try assumption; destruct Hj; subst j; lia).
    unfold residual_at, cell_value.
    destruct Hj; subst j; zprune; decimals; lra. }
  rewrite E. split; intros H.
  - apply Rmult_integral in H. destruct H; lra.
  - rewrite H. ring.
Qed.

Lemma boundary_residual_zero_iff_witness :
  snd (FormFunctionLocal wind_a grid5 u_step zeros (ctx_of VANLEER NONE)) 0%Z
    = 0
  <-> u_step 0%Z = if (0 =? 0)%Z then 1 else 0.
Proof.
  apply (boundary_residual_zero_iff wind_a grid5 u_step zeros
           (ctx_of VANLEER NONE) 0).
  - cbn; lia.
  - cbn; lra.
  - unfold owned; cbn; lia.
  - left; reflexivity.
Defined.

(** X11.  For a trial solution that takes the Dirichlet values at the two
    boundary nodes, the first-order upwind residual of an owned interior
    cell is the plain difference formula in the array values:
    [- eps (u_(i-1) - 2 u_i + u_(i+1)) / h + (u_i - u_(i-1))]. *)
Theorem upwind_residual_on_dirichlet (info : DMDALocalInfo)
    (au aF : RealArray) (usr : AdCtx) (i : Z) :
  (2 <= mx info)%Z -> owned info i -> (0 < i < mx info - 1)%Z ->
  limiter_fcn usr = None ->
  au 0%Z = 1 -> au (mx info - 1)%Z = 0 ->
  snd (FormFunctionLocal wind_a info au aF usr) i =
  - eps usr * (au (i - 1)%Z - 2 * au i + au (i + 1)%Z) / hx_of info
  + (au i - au (i - 1)%Z).
Proof.
  intros HN Hown Hi Hl B0 B1.
  rewrite FormFunctionLocal_owned by (assumption || lia).
  unfold residual_at. rewrite !face_flux_none by assumption.
  rewrite cell_value_interior by assumption.
  rewrite !face_a_wind_a, !face_u_up_wind_a.
  assert (EW : (if (i =? 1)%Z then 1 else au (i - 1)%Z) = au (i - 1)%Z).
  { destruct (Z.eqb_spec i 1) as [->|]; [symmetry; exact B0|reflexivity]. }
  assert (EE : (if (i =? mx info - 2)%Z then 0 else au (i + 1)%Z)
               = au (i + 1)%Z).
  { destruct (Z.eqb_spec i (mx info - 2)) as [->|]; [|reflexivity].
    replace (mx info - 2 + 1)%Z with (mx info - 1)%Z by lia.
    symmetry; exact B1. }
  rewrite EW, EE.
  assert (EU : (if (i - 1 =? 0)%Z then 1 else au (i - 1)%Z) = au (i - 1)%Z).
  { destruct (Z.eqb_spec (i - 1) 0) as [e|]; [|reflexivity].
    rewrite e. symmetry; exact B0. }
  rewrite EU. zprune. lra.
Qed.

Lemma upwind_residual_on_dirichlet_witness :
  snd (FormFunctionLocal wind_a grid5 u_step zeros (ctx_of NONE NONE)) 1%Z =
  - eps (ctx_of NONE NONE) *
    (u_step (1 - 1)%Z - 2 * u_step 1%Z + u_step (1 + 1)%Z) / hx_of grid5
  + (u_step 1%Z - u_step (1 - 1)%Z).
Proof.
  apply (upwind_residual_on_dirichlet grid5 u_step zeros (ctx_of NONE NONE) 1).
  - cbn; lia.
  - unfold owned; cbn; lia.
  - cbn; lia.
  - reflexivity.
  - reflexivity.
  - reflexivity.
Defined.

Lemma Rsum_telescope (g : Z -> R) (n : nat) :
  forall lo : Z,
    Rsum (map (fun j => g j - g (j - 1)%Z) (Zrange lo (S n))) =
    g (lo + Z.of_nat n)%Z - g (lo - 1)%Z.
Proof.
  induction n as [|n IH]; intros lo.
  - cbn. rewrite Z.add_0_r. ring.
  - change (Zrange lo (S (S n))) with (lo :: Zrange (lo + 1) (S n)).
    cbn [map Rsum fold_right]. fold (Rsum (map (fun j => g j - g (j - 1)%Z)
                                             (Zrange (lo + 1) (S n)))).
    rewrite IH.
    replace (lo + 1 + Z.of_nat n)%Z with (lo + Z.of_nat (S n))%Z by lia.
    replace (lo + 1 - 1)%Z with lo by lia. ring.
Qed.

(** X12.  Conservation.  On a grid of N >= 3 points owned by one worker,
    the advective parts of the residuals of the interior cells add up to
    the flux through the last interior face minus the flux through the
    first face: the fluxes through the faces in between cancel, for every
    wind, limiter and trial solution. *)
Theorem advective_part_telescopes (wind : R -> R) (N : Z)
    (au aF : RealArray) (usr : AdCtx) :
  (3 <= N)%Z ->
  Rsum (map (fun j =>
               snd (FormFunctionLocal wind (mkInfo N 0 N) au aF usr) j
               - cell_value (mkInfo N 0 N) au usr j)
            (Zrange 1 (Z.to_nat (N - 2)))) =
  flux (face_flux wind (mkInfo N 0 N) au usr (N - 2))
  - flux (face_flux wind (mkInfo N 0 N) au usr 0).
Proof.
  intros HN.
  rewrite (map_ext_in _
             (fun j => flux (face_flux wind (mkInfo N 0 N) au usr j)
                       - flux (face_flux wind (mkInfo N 0 N) au usr (j - 1)))).
  - replace (Z.to_nat (N - 2)) with (S (Z.to_nat (N - 3))) by lia.
    rewrite (Rsum_telescope
               (fun j => flux (face_flux wind (mkInfo N 0 N) au usr j))).
    replace (1 + Z.of_nat (Z.to_nat (N - 3)))%Z with (N - 2)%Z by lia.
    reflexivity.
  - intros j Hj. apply in_Zrange in Hj.
    rewrite FormFunctionLocal_owned
      by (unfold owned; cbn [mx xs xm]; lia).
    unfold residual_at. cbn [mx]. zprune. ring.
Qed.

Lemma advective_part_telescopes_witness :
  Rsum (map (fun j =>
               snd (FormFunctionLocal wind_a (mkInfo 5 0 5) u_step zeros
                      (ctx_of VANLEER NONE)) j
               - cell_value (mkInfo 5 0 5) u_step (ctx_of VANLEER NONE) j)
            (Zrange 1 (Z.to_nat (5 - 2)))) =
  flux (face_flux wind_a (mkInfo 5 0 5) u_step (ctx_of VANLEER NONE) (5 - 2))
  - flux (face_flux wind_a (mkInfo 5 0 5) u_step (ctx_of VANLEER NONE) 0).
Proof.
  apply (advective_part_telescopes wind_a 5 u_step zeros
           (ctx_of VANLEER NONE)).
  lia.
Defined.

(** ** The Jacobian evaluator, continued *)

Lemma owned_test (info : DMDALocalInfo) (r : Z) :
  owned info r ->
  ((xs info <=? r) && (r <? xs info + xm info))%Z = true.
Proof.
  intros [Hlo Hhi]. apply andb_true_intro; split;
    [apply Z.leb_le | apply Z.ltb_lt]; assumption.
Qed.

Lemma unowned_test (info : DMDALocalInfo) (r : Z) :
  ~ owned info r ->
  ((xs info <=? r) && (r <? xs info + xm info))%Z = false.
Proof.
  intros Hn. unfold owned in Hn.
  destruct (Z.leb_spec (xs info) r), (Z.ltb_spec r (xs info + xm info));
    cbn [andb]; try reflexivity; lia.
Qed.

(** X13.  When the evaluation goes through, the matrix is assembled from
    scratch: its entries depend neither on what the matrix held before the
    call nor on the trial solution. *)
Theorem jacobian_assembled_afresh (wind : R -> R) (info : DMDALocalInfo)
    (u u' : RealArray) (P P' : Mat) (usr : AdCtx) (r c : Z) :
  jac_limiter_fcn usr <> Some addr_vanleer ->
  snd (FormJacobianLocal wind info u P usr) r c =
  snd (FormJacobianLocal wind info u' P' usr) r c.
Proof.
  intros Hl. rewrite !FormJacobianLocal_entry by assumption. reflexivity.
Qed.

Lemma jacobian_assembled_afresh_witness :
  snd (FormJacobianLocal wind_a grid5 zeros zeros_mat
         (ctx_of VANLEER CENTERED)) 2%Z 2%Z =
  snd (FormJacobianLocal wind_a grid5 u_step (fun r c => IZR (r + c))
         (ctx_of VANLEER CENTERED)) 2%Z 2%Z.
Proof.
  apply (jacobian_assembled_afresh wind_a grid5 zeros u_step zeros_mat
           (fun r c => IZR (r + c)) (ctx_of VANLEER CENTERED) 2 2).
  discriminate.
Defined.

(** Entries of a row outside the three central columns. *)
Lemma jac_row_band (wind : R -> R) (info : DMDALocalInfo) (usr : AdCtx)
    (r c : Z) :
  (c < r - 1 \/ r + 1 < c)%Z -> jac_row wind info usr r c = 0.
Proof.
  intros Hc. unfold jac_row, jac_body.
  destruct ((r =? 0) || (r =? mx info - 1))%Z.
  - rewrite MatSetValues_entry, Z.eqb_refl. cbn [row_sum]. zprune. lra.
  - destruct (jac_limiter_fcn usr) as [[|]|];
      rewrite !MatSetValues_entry, Z.eqb_refl;
      destruct (Rgeb _ 0.0), (Rgeb _ 0.0);
      cbn [row_sum fst snd]; zprune; lra.
Qed.

(** X14.  The assembled matrix is tridiagonal for every wind and for both
    supported limiters: an entry more than one column away from the
    diagonal is zero. *)
Theorem jacobian_tridiagonal (wind : R -> R) (info : DMDALocalInfo)
    (u : RealArray) (P : Mat) (usr : AdCtx) (r c : Z) :
  jac_limiter_fcn usr <> Some addr_vanleer ->
  (c < r - 1 \/ r + 1 < c)%Z ->
  snd (FormJacobianLocal wind info u P usr) r c = 0.
Proof.
  intros Hl Hc. rewrite FormJacobianLocal_entry by assumption.
  rewrite jac_row_band by assumption.
  destruct ((xs info <=? r) && (r <? xs info + xm info))%Z; reflexivity.
Qed.

Lemma jacobian_tridiagonal_witness :
  snd (FormJacobianLocal wind_a grid5 u_step (fun r c => IZR (r + c))
         (ctx_of NONE CENTERED)) 1%Z 3%Z = 0.
Proof.
  apply (jacobian_tridiagonal wind_a grid5 u_step (fun r c => IZR (r + c))
           (ctx_of NONE CENTERED) 1 3).
  - discriminate.
  - right; lia.
Defined.

Lemma jac_row_boundary_columns (wind : R -> R) (info : DMDALocalInfo)
    (usr : AdCtx) (r c : Z) :
  (0 < r < mx info - 1)%Z -> c = 0%Z \/ c = (mx info - 1)%Z ->
  jac_row wind info usr r c = 0.
Proof.
  intros Hr Hc. unfold jac_row, jac_body.
  replace ((r =? 0) || (r =? mx info - 1))%Z with false
    by (symmetry; apply orb_false_intro; apply Z.eqb_neq; lia).
  destruct (jac_limiter_fcn usr) as [[|]|];
    rewrite !MatSetValues_entry, Z.eqb_refl;
    destruct (Rgeb _ 0.0), (Rgeb _ 0.0);
    cbn [row_sum fst snd]; destruct Hc; subst c; zprune; lra.
Qed.

(** X15.  The boundary unknowns are decoupled, for every wind and both
    supported limiters: the row of an owned boundary node holds [scdiag] on
    the diagonal and zero elsewhere, and the row of an owned interior cell
    holds zero in the columns of the two boundary nodes. *)
Theorem jacobian_boundary_decoupled (wind : R -> R) (info : DMDALocalInfo)
    (u : RealArray) (P : Mat) (usr : AdCtx) (r c : Z) :
  (2 <= mx info)%Z -> owned info r -> (0 <= r < mx info)%Z ->
  jac_limiter_fcn usr <> Some addr_vanleer ->
  snd (FormJacobianLocal wind info u P usr) r c =
  if ((r =? 0) || (r =? mx info - 1))%Z
  then (if (c =? r)%Z then scdiag_of info usr else 0)
  else if ((c =? 0) || (c =? mx info - 1))%Z then 0
  else jac_row wind info usr r c.
Proof.
  intros HN Hown Hr Hl. rewrite FormJacobianLocal_entry by assumption.
  rewrite owned_test by assumption.
  destruct (Z.eqb_spec r 0) as [R0|R0];
    [|destruct (Z.eqb_spec r (mx info - 1)) as [RN|RN]]; cbn [orb].
  - apply jac_row_boundary. left; assumption.
  - apply jac_row_boundary. right; assumption.
  - destruct (Z.eqb_spec c 0) as [C0|C0];
      [|destruct (Z.eqb_spec c (mx info - 1)) as [CN|CN]]; cbn [orb].
    + apply jac_row_boundary_columns; [lia | left; assumption].
    + apply jac_row_boundary_columns; [lia | right; assumption].
    + reflexivity.
Qed.

Lemma jacobian_boundary_decoupled_witness :
  snd (FormJacobianLocal wind_a grid5 u_step zeros_mat
         (ctx_of NONE CENTERED)) 1%Z 0%Z =
  if ((1 =? 0) || (1 =? mx grid5 - 1))%Z
  then (if (0 =? 1)%Z then scdiag_of grid5 (ctx_of NONE CENTERED) else 0)
  else if ((0 =? 0) || (0 =? mx grid5 - 1))%Z then 0
  else jac_row wind_a grid5 (ctx_of NONE CENTERED) 1 0.
Proof.
  apply (jacobian_boundary_decoupled wind_a grid5 u_step zeros_mat
           (ctx_of NONE CENTERED) 1 0).
  - cbn; lia.
  - unfold owned; cbn; lia.
  - cbn; lia.
  - discriminate.
Defined.

(** The matrix row of an interior cell for the wind of the program. *)
Lemma jac_row_wind_a (info : DMDALocalInfo) (usr : AdCtx) (r c : Z) :
  (2 <= mx info)%Z -> (0 < r < mx info - 1)%Z ->
  jac_limiter_fcn usr <> Some addr_vanleer ->
  jac_row wind_a info usr r c =
  let half := match jac_limiter_fcn usr with Some _ => 1 / 2 | None => 0 end in
  if (c =? r)%Z then 2 * eps usr / hx_of info + 1 - 2 * half
  else if (c =? r - 1)%Z then
    (if (0 <? r - 1)%Z then - eps usr / hx_of info - 1 + half else 0)
  else if (c =? r + 1)%Z then
    (if (r + 1 <? mx info - 1)%Z then - eps usr / hx_of info + half else 0)
  else 0.
Proof.
  intros HN Hr Hl. pose proof (hx_of_pos info HN) as Hh.
  unfold jac_row, jac_body, wind_a.
  replace ((r =? 0) || (r =? mx info - 1))%Z with false
    by (symmetry; apply orb_false_intro; apply Z.eqb_neq; lia).
  rewrite (Rgeb_true 1.0 0.0) by lra.
  destruct (jac_limiter_fcn usr) as [[|]|]; try congruence;
    rewrite !MatSetValues_entry, Z.eqb_refl; cbn [row_sum fst snd];
    cbv zeta; decimals; zprune; field; lra.
Qed.

(** X16.  First-order upwinding gives an M-matrix pattern.  With the wind
    of the program, no Jacobian-side limiter and [eps > 0], every owned row
    of the assembled matrix has the diagonal entry [scdiag = 2 eps / h + 1],
    which is positive, nonpositive entries off the diagonal, and a
    nonnegative row sum, so the matrix is weakly diagonally dominant. *)
Theorem upwind_jacobian_dominant (info : DMDALocalInfo) (u : RealArray)
    (P : Mat) (usr : AdCtx) (r : Z) :
  (2 <= mx info)%Z -> 0 < eps usr -> owned info r -> (0 <= r < mx info)%Z ->
  jac_limiter_fcn usr = None ->
  snd (FormJacobianLocal wind_a info u P usr) r r = scdiag_of info usr
  /\ 0 < scdiag_of info usr
  /\ (forall c : Z, c <> r ->
        snd (FormJacobianLocal wind_a info u P usr) r c <= 0)
  /\ 0 <= snd (FormJacobianLocal wind_a info u P usr) r (r - 1)%Z
          + snd (FormJacobianLocal wind_a info u P usr) r r
          + snd (FormJacobianLocal wind_a info u P usr) r (r + 1)%Z.
Proof.
  intros HN He Hown Hr Hl.
  pose proof (hx_of_pos info HN) as Hh.
  pose proof (scdiag_of_pos info usr HN He) as Hs.
  assert (Hq : 0 < eps usr / hx_of info) by (apply Rdiv_lt_0_compat; lra).
  assert (HJ : forall c : Z,
             snd (FormJacobianLocal wind_a info u P usr) r c =
             jac_row wind_a info usr r c).
  { intros c. rewrite FormJacobianLocal_entry by (rewrite Hl; discriminate).
    now rewrite owned_test. }
  assert (Hsc : scdiag_of info usr = 2 * (eps usr / hx_of info) + 1).
  { unfold scdiag_of. decimals. field. lra. }
  assert (Hm : - eps usr / hx_of info = - (eps usr / hx_of info))
    by (field; lra).
  assert (H2 : 2 * eps usr / hx_of info = 2 * (eps usr / hx_of info))
    by (field; lra).
  rewrite !HJ.
  destruct (Z.eq_dec r 0) as [R0|R0];
    [|destruct (Z.eq_dec r (mx info - 1)) as [RN|RN]].
  - rewrite !jac_row_boundary by (left; assumption).
    rewrite Z.eqb_refl. repeat split; try lra.
    + intros c Hc. rewrite HJ, jac_row_boundary by (left; assumption).
      destruct (Z.eqb_spec c r); [contradiction | lra].
    + zprune; lra.
  - rewrite !jac_row_boundary by (right; assumption).
    rewrite Z.eqb_refl. repeat split; try lra.
    + intros c Hc. rewrite HJ, jac_row_boundary by (right; assumption).
      destruct (Z.eqb_spec c r); [contradiction | lra].
    + zprune; lra.
  - rewrite !jac_row_wind_a by (try lia; rewrite Hl; discriminate).
    rewrite Hl. cbv zeta. rewrite Hm, H2, Hsc.
    repeat split; try lra.
    + zprune; lra.
    + intros c Hc. rewrite HJ, jac_row_wind_a
        by (try lia; rewrite Hl; discriminate).
      rewrite Hl. cbv zeta. rewrite Hm. zprune; lra.
    + zprune; lra.
Qed.

Lemma upwind_jacobian_dominant_witness :
  snd (FormJacobianLocal wind_a grid5 u_step zeros_mat (ctx_of NONE NONE))
    2%Z 2%Z = scdiag_of grid5 (ctx_of NONE NONE)
  /\ 0 < scdiag_of grid5 (ctx_of NONE NONE)
  /\ (forall c : Z, c <> 2%Z ->
        snd (FormJacobianLocal wind_a grid5 u_step zeros_mat
               (ctx_of NONE NONE)) 2%Z c <= 0)
  /\ 0 <= snd (FormJacobianLocal wind_a grid5 u_step zeros_mat
                 (ctx_of NONE NONE)) 2%Z (2 - 1)%Z
          + snd (FormJacobianLocal wind_a grid5 u_step zeros_mat
                   (ctx_of NONE NONE)) 2%Z 2%Z
          + snd (FormJacobianLocal wind_a grid5 u_step zeros_mat
                   (ctx_of NONE NONE)) 2%Z (2 + 1)%Z.
Proof.
  apply (upwind_jacobian_dominant grid5 u_step zeros_mat (ctx_of NONE NONE) 2).
  - cbn; lia.
  - cbn; lra.
  - unfold owned; cbn; lia.
  - cbn; lia.
  - reflexivity.
Defined.

(** X17.  With the wind of the program and the centered limiter on the
    Jacobian side, a row away from the boundary holds the centered stencil:
    [2 eps / h] on the diagonal, [- eps / h - 1/2] left and
    [- eps / h + 1/2] right of it; the entry right of the diagonal is
    nonpositive exactly when [h <= 2 eps]. *)
Theorem centered_jacobian_stencil (info : DMDALocalInfo) (u : RealArray)
    (P : Mat) (usr : AdCtx) (r : Z) :
  (2 <= mx info)%Z -> 0 < eps usr -> owned info r ->
  (1 < r < mx info - 2)%Z ->
  jac_limiter_fcn usr = Some addr_centered ->
  snd (FormJacobianLocal wind_a info u P usr) r r = 2 * eps usr / hx_of info
  /\ snd (FormJacobianLocal wind_a info u P usr) r (r - 1)%Z =
     - eps usr / hx_of info - 1 / 2
  /\ snd (FormJacobianLocal wind_a info u P usr) r (r + 1)%Z =
     - eps usr / hx_of info + 1 / 2
  /\ (snd (FormJacobianLocal wind_a info u P usr) r (r + 1)%Z <= 0
      <-> hx_of info <= 2 * eps usr).
Proof.
  intros HN He Hown Hr Hl.
  pose proof (hx_of_pos info HN) as Hh.
  assert (HJ : forall c : Z,
             snd (FormJacobianLocal wind_a info u P usr) r c =
             jac_row wind_a info usr r c).
  { intros c. rewrite FormJacobianLocal_entry by (rewrite Hl; discriminate).
    now rewrite owned_test. }
  rewrite !HJ, !jac_row_wind_a by (try lia; rewrite Hl; discriminate).
  rewrite Hl. cbv zeta.
  assert (E : - eps usr / hx_of info + 1 / 2 =
              (hx_of info - 2 * eps usr) / (2 * hx_of info))
    by (field; lra).
  split; [zprune; lra|]. split; [zprune; lra|]. split; [zprune; lra|].
  zprune. rewrite E.
  assert (Hinv : 0 < / (2 * hx_of info)) by (apply Rinv_0_lt_compat; lra).
  unfold Rdiv. split; intros Hsign; nra.
Qed.

Lemma centered_jacobian_stencil_witness :
  snd (FormJacobianLocal wind_a grid5 u_step zeros_mat
         (ctx_of CENTERED CENTERED)) 2%Z 2%Z =
    2 * eps (ctx_of CENTERED CENTERED) / hx_of grid5
  /\ snd (FormJacobianLocal wind_a grid5 u_step zeros_mat
            (ctx_of CENTERED CENTERED)) 2%Z (2 - 1)%Z =
     - eps (ctx_of CENTERED CENTERED) / hx_of grid5 - 1 / 2
  /\ snd (FormJacobianLocal wind_a grid5 u_step zeros_mat
            (ctx_of CENTERED CENTERED)) 2%Z (2 + 1)%Z =
     - eps (ctx_of CENTERED CENTERED) / hx_of grid5 + 1 / 2
  /\ (snd (FormJacobianLocal wind_a grid5 u_step zeros_mat
             (ctx_of CENTERED CENTERED)) 2%Z (2 + 1)%Z <= 0
      <-> hx_of grid5 <= 2 * eps (ctx_of CENTERED CENTERED)).
Proof.
  apply (centered_jacobian_stencil grid5 u_step zeros_mat
           (ctx_of CENTERED CENTERED) 2).
  - cbn; lia.
  - cbn; lra.
  - unfold owned; cbn; lia.
  - cbn; lia.
  - reflexivity.
Defined.

Lemma jac_row_only_mx (wind : R -> R) (N xs1 xm1 xs2 xm2 : Z) (usr : AdCtx)
    (r c : Z) :
  jac_row wind (mkInfo N xs1 xm1) usr r c =
  jac_row wind (mkInfo N xs2 xm2) usr r c.
Proof. reflexivity. Qed.

(** X18.  The rows of a worker are the rows of a single owner.  For a
    worker whose range lies inside the grid, the matrix it assembles holds,
    in its owned rows, the entries that a single owner of [0,N) assembles,
    and zero in every other row, whatever trial solution and prior matrix
    either of them is given: no halo is needed for the Jacobian. *)
Theorem jacobian_rows_of_worker (wind : R -> R) (N : Z) (usr : AdCtx)
    (u u' : RealArray) (P P' : Mat) (w : Worker) (r c : Z) :
  jac_limiter_fcn usr <> Some addr_vanleer ->
  (0 <= w_xs w)%Z -> (w_xs w + w_xm w <= N)%Z ->
  snd (FormJacobianLocal wind (worker_info N w) u P usr) r c =
  if ((w_xs w <=? r) && (r <? w_xs w + w_xm w))%Z
  then snd (FormJacobianLocal wind (mkInfo N 0 N) u' P' usr) r c
  else 0.
Proof.
  intros Hl Hlo Hhi. rewrite !FormJacobianLocal_entry by assumption.
  unfold worker_info. cbn [xs xm].
  destruct (Z.leb_spec (w_xs w) r), (Z.ltb_spec r (w_xs w + w_xm w));
    cbn [andb]; try reflexivity.
  replace ((0 <=? r) && (r <? 0 + N))%Z with true
    by (symmetry; apply andb_true_intro; split;
        [apply Z.leb_le | apply Z.ltb_lt]; lia).
  apply jac_row_only_mx.
Qed.

Lemma jacobian_rows_of_worker_witness :
  snd (FormJacobianLocal wind_a (worker_info 5 w_right) (w_au w_right)
         zeros_mat (ctx_of VANLEER CENTERED)) 3%Z 2%Z =
  if ((w_xs w_right <=? 3) && (3 <? w_xs w_right + w_xm w_right))%Z
  then snd (FormJacobianLocal wind_a (mkInfo 5 0 5) u_step
              (fun r c => IZR (r + c)) (ctx_of VANLEER CENTERED)) 3%Z 2%Z
  else 0.
Proof.
  apply (jacobian_rows_of_worker wind_a 5 (ctx_of VANLEER CENTERED)
           (w_au w_right) u_step zeros_mat (fun r c => IZR (r + c))
           w_right 3 2).
  - discriminate.
  - cbn; lia.
  - cbn; lia.
Defined.

(** ** The exact solution *)

Lemma uexact_den_pos (usr : AdCtx) :
  0 < eps usr -> 0 < 1 - exp (- 2 / eps usr).
Proof.
  intros He.
  assert (- 2 / eps usr < 0).
  { unfold Rdiv. assert (0 < / eps usr) by (apply Rinv_0_lt_compat; lra).
    nra. }
  pose proof (exp_increasing _ _ H) as Hi. rewrite exp_0 in Hi. lra.
Qed.

Lemma exp_le (a b : R) : a <= b -> exp a <= exp b.
Proof.
  intros [H|H]; [left; now apply exp_increasing | rewrite H; lra].
Qed.

Lemma u_exact_eq (x : R) (usr : AdCtx) :
  u_exact x usr = (1 - exp ((x - 1) / eps usr)) / (1 - exp (- 2 / eps usr)).
Proof.
  unfold u_exact. decimals. replace (- 2.0) with (- 2) by lra. reflexivity.
Qed.

(** X19.  For [eps > 0] the exact solution satisfies the boundary
    conditions of the problem: [u(-1) = 1] and [u(1) = 0]. *)
Theorem u_exact_boundary (usr : AdCtx) :
  0 < eps usr -> u_exact (-1) usr = 1 /\ u_exact 1 usr = 0.
Proof.
  intros He. pose proof (uexact_den_pos usr He) as Hd.
  rewrite !u_exact_eq. split.
  - replace ((-1 - 1) / eps usr) with (- 2 / eps usr) by (field; lra).
    field. lra.
  - replace ((1 - 1) / eps usr) with 0 by (field; lra).
    rewrite exp_0. field. lra.
Qed.

Lemma u_exact_boundary_witness :
  u_exact (-1) (ctx_of NONE NONE) = 1 /\ u_exact 1 (ctx_of NONE NONE) = 0.
Proof. apply (u_exact_boundary (ctx_of NONE NONE)). cbn; lra. Defined.

(** X20.  For [eps > 0] the exact solution is strictly decreasing, and on
    the domain [-1,1] it stays between the two boundary values 0 and 1. *)
Theorem u_exact_monotone_bounded (usr : AdCtx) (x y : R) :
  0 < eps usr -> x < y ->
  u_exact y usr < u_exact x usr
  /\ (-1 <= x <= 1 -> 0 <= u_exact x usr <= 1).
Proof.
  intros He Hxy. pose proof (uexact_den_pos usr He) as Hd.
  assert (Hk : 0 < / eps usr) by (apply Rinv_0_lt_compat; lra).
  assert (Hinv : 0 < / (1 - exp (- 2 / eps usr)))
    by (apply Rinv_0_lt_compat; lra).
  assert (Hlt : exp ((x - 1) / eps usr) < exp ((y - 1) / eps usr))
    by (apply exp_increasing; unfold Rdiv; nra).
  rewrite !u_exact_eq.
  set (D := 1 - exp (- 2 / eps usr)) in *.
  set (Ex := exp ((x - 1) / eps usr)) in *.
  set (Ey := exp ((y - 1) / eps usr)) in *.
  assert (HI : D * / D = 1) by (field; lra).
  unfold Rdiv. split.
  - apply Rmult_lt_compat_r; lra.
  - intros [Hx1 Hx2].
    assert (Hlo : exp (- 2 / eps usr) <= Ex)
      by (apply exp_le; unfold Rdiv; nra).
    assert (Hhi : Ex <= exp 0) by (apply exp_le; unfold Rdiv; nra).
    rewrite exp_0 in Hhi. split.
    + apply Rmult_le_pos; lra.
    + apply Rle_trans with (D * / D); [|lra].
      apply Rmult_le_compat_r; [lra | unfold D; lra].
Qed.

Lemma u_exact_monotone_bounded_witness :
  u_exact (1 / 2) (ctx_of NONE NONE) < u_exact 0 (ctx_of NONE NONE)
  /\ (-1 <= 0 <= 1 -> 0 <= u_exact 0 (ctx_of NONE NONE) <= 1).
Proof.
  apply (u_exact_monotone_bounded (ctx_of NONE NONE) 0 (1 / 2)).
  - cbn; lra.
  - lra.
Defined.

Lemma derivable_pt_lim_ext (f g : R -> R) (x l : R) :
  (forall t : R, f t = g t) ->
  derivable_pt_lim f x l -> derivable_pt_lim g x l.
Proof.
  intros E H e He. destruct (H e He) as [d Hd]. exists d.
  intros h Hh1 Hh2. rewrite <- !E. now apply Hd.
Qed.

(** Derivative of [a + b * exp ((x - 1) / e)]. *)
Lemma derive_exp_profile (a b e x : R) :
  e <> 0 ->
  derivable_pt_lim (fun t => a + b * exp ((t - 1) / e)) x
    (b * (exp ((x - 1) / e) / e)).
Proof.
  intros He.
  assert (H1 : derivable_pt_lim (fun t => (t - 1) / e) x (/ e)).
  { apply affine_derivative. intros t. field. assumption. }
  pose proof (derivable_pt_lim_comp (fun t => (t - 1) / e) exp x _ _
                H1 (derivable_pt_lim_exp _)) as H2.
  pose proof (derivable_pt_lim_plus _ _ x _ _
                (derivable_pt_lim_const a x)
                (derivable_pt_lim_scal _ b x _ H2)) as H3.
  replace (b * (exp ((x - 1) / e) / e))
    with (0 + b * (exp ((x - 1) / e) * / e)) by (unfold Rdiv; ring).
  exact H3.
Qed.

(** X21.  For [eps > 0] the exact solution solves the differential
    equation of the problem with the wind of the program:
    [du_exact] is its derivative, [d2u_exact] its second derivative, and
    [- eps u'' + a u' = 0] with [a = wind_a x]. *)
Theorem u_exact_solves_equation (usr : AdCtx) (x : R) :
  0 < eps usr ->
  derivable_pt_lim (fun t => u_exact t usr) x (du_exact x usr)
  /\ derivable_pt_lim (fun t => du_exact t usr) x (d2u_exact x usr)
  /\ - eps usr * d2u_exact x usr + wind_a x * du_exact x usr = 0.
Proof.
  intros He. pose proof (uexact_den_pos usr He) as Hd.
  set (D := 1 - exp (- 2 / eps usr)) in *.
  split; [|split].
  - apply (derivable_pt_lim_ext
             (fun t => / D + (- / D) * exp ((t - 1) / eps usr))).
    + intros t. rewrite u_exact_eq. fold D. field. lra.
    + replace (du_exact x usr)
        with (- / D * (exp ((x - 1) / eps usr) / eps usr))
        by (unfold du_exact; fold D; field; lra).
      apply derive_exp_profile. lra.
  - apply (derivable_pt_lim_ext
             (fun t => 0 + (- / (D * eps usr)) * exp ((t - 1) / eps usr))).
    + intros t. unfold du_exact. fold D. field. lra.
    + replace (d2u_exact x usr)
        with (- / (D * eps usr) * (exp ((x - 1) / eps usr) / eps usr))
        by (unfold d2u_exact; fold D; field; lra).
      apply derive_exp_profile. lra.
  - unfold d2u_exact, du_exact, wind_a. fold D. decimals. field. lra.
Qed.

Lemma u_exact_solves_equation_witness :
  derivable_pt_lim (fun t => u_exact t (ctx_of NONE NONE)) 0
    (du_exact 0 (ctx_of NONE NONE))
  /\ derivable_pt_lim (fun t => du_exact t (ctx_of NONE NONE)) 0
       (d2u_exact 0 (ctx_of NONE NONE))
  /\ - eps (ctx_of NONE NONE) * d2u_exact 0 (ctx_of NONE NONE)
     + wind_a 0 * du_exact 0 (ctx_of NONE NONE) = 0.
Proof.
  apply (u_exact_solves_equation (ctx_of NONE NONE) 0). cbn; lra.
Defined.

(** ** FormUExact *)

Lemma uexact_loop_entry (info : DMDALocalInfo) (usr : AdCtx) (lo hi : Z)
    (uex : RealArray) :
  forall j : Z,
    for_loop lo hi (uexact_body info usr) uex j =
    if ((lo <=? j) && (j <? hi))%Z
    then u_exact (xcoord info j) usr else uex j.
Proof.
  apply (for_loop_ind (uexact_body info usr) hi
    (fun lo s r => forall j : Z,
       r j = if ((lo <=? j) && (j <? hi))%Z
             then u_exact (xcoord info j) usr else s j)).
  - intros l s Hlo j. zprune; reflexivity.
  - intros l s r Hlo IH j. rewrite IH. unfold uexact_body, aset, xcoord.
    zprune; subst; reflexivity.
Qed.

(** X22.  [FormUExact] stores, in every owned entry [j], the exact solution
    at the coordinate [-1 + j h] of grid point [j], and leaves every other
    entry of the vector as it was. *)
Theorem FormUExact_samples (info : DMDALocalInfo) (usr : AdCtx)
    (uex : RealArray) (j : Z) :
  snd (FormUExact info usr uex) j =
  if ((xs info <=? j) && (j <? xs info + xm info))%Z
  then u_exact (xcoord info j) usr else uex j.
Proof. cbn [FormUExact snd]. apply uexact_loop_entry. Qed.

(** X23.  On a grid of at least two points and for [eps > 0], the samples
    that [FormUExact] stores at owned boundary nodes are the Dirichlet
    values: 1 at node 0 and 0 at node N-1. *)
Theorem FormUExact_boundary (info : DMDALocalInfo) (usr : AdCtx)
    (uex : RealArray) (j : Z) :
  (2 <= mx info)%Z -> 0 < eps usr -> owned info j ->
  j = 0%Z \/ j = (mx info - 1)%Z ->
  snd (FormUExact info usr uex) j = if (j =? 0)%Z then 1 else 0.
Proof.
  intros HN He Hown Hj. cbn [FormUExact snd].
  rewrite uexact_loop_entry, owned_test by assumption.
  pose proof (uexact_den_pos usr He) as Hd.
  destruct Hj as [-> | ->].
  - rewrite xcoord_first, u_exact_eq by assumption. cbn [Z.eqb].
    replace ((-1 - 1) / eps usr) with (- 2 / eps usr) by (field; lra).
    field. lra.
  - rewrite xcoord_last, u_exact_eq by assumption.
    destruct (Z.eqb_spec (mx info - 1) 0); [lia|].
    replace ((1 - 1) / eps usr) with 0 by (field; lra).
    rewrite exp_0. field. lra.
Qed.

Lemma FormUExact_boundary_witness :
  snd (FormUExact grid5 (ctx_of NONE NONE) zeros) 4%Z =
  if (4 =? 0)%Z then 1 else 0.
Proof.
  apply (FormUExact_boundary grid5 (ctx_of NONE NONE) zeros 4).
  - cbn; lia.
  - cbn; lra.
  - unfold owned; cbn; lia.
  - right; reflexivity.
Defined.

(** ** The options of [main] and the Jacobian evaluator *)

(** X24.  Whether the Jacobian evaluator can be used follows from the
    command line.  When the options are accepted, the evaluator called with
    the context that [main] builds returns 0 if [-snes_fd] or
    [-snes_fd_color] is given, and otherwise 1 exactly when the effective
    Jacobian-side limiter is van Leer, where [-jac_limiter] defaults to the
    value of [-limiter]: so [-limiter vanleer] alone makes it fail. *)
Theorem jacobian_usable_from_options (opt_eps : option R)
    (opt_limiter opt_jac_limiter : option LimiterType)
    (snesfdset snesfdcolorset : bool) (user : AdCtx)
    (wind : R -> R) (info : DMDALocalInfo) (u : RealArray) (P : Mat) :
  main_user opt_eps opt_limiter opt_jac_limiter snesfdset snesfdcolorset
    = inr user ->
  fst (FormJacobianLocal wind info u P user) =
  if snesfdset || snesfdcolorset then 0%Z
  else match opt_jac_limiter, opt_limiter with
       | Some VANLEER, _ => 1%Z
       | None, Some VANLEER => 1%Z
       | _, _ => 0%Z
       end.
Proof.
  unfold main_user, main_options, main_limiters. cbn [fst snd].
  destruct (Rleb (main_eps opt_eps) 0.0); [discriminate|].
  intros H. injection H as <-.
  unfold FormJacobianLocal. cbn [jac_limiter_fcn].
  destruct (snesfdset || snesfdcolorset); [reflexivity|].
  destruct opt_jac_limiter as [[| |]|], opt_limiter as [[| |]|];
    reflexivity.
Qed.

Lemma jacobian_usable_from_options_witness :
  fst (FormJacobianLocal wind_a grid5 zeros zeros_mat
         (mkAdCtx 0.01 (Some addr_vanleer) (Some addr_vanleer))) =
  if false || false then 0%Z
  else match @None LimiterType, Some VANLEER with
       | Some VANLEER, _ => 1%Z
       | None, Some VANLEER => 1%Z
       | _, _ => 0%Z
       end.
Proof.
  apply (jacobian_usable_from_options None (Some VANLEER) None false false
           (mkAdCtx 0.01 (Some addr_vanleer) (Some addr_vanleer))
           wind_a grid5 zeros zeros_mat).
  unfold main_user, main_options, main_limiters, main_eps. cbn [fst snd].
  rewrite Rleb_false by lra. reflexivity.
Defined.

(** ** Two more facts on the residual *)

(** X25.  On a locally linear profile the van Leer scheme is the centered
    scheme: when the gradient upwind of a face equals the gradient across
    it, the van Leer flux is the wind speed times the mean of the upwind
    and the downwind value. *)
Theorem vanleer_flux_on_linear_profile (wind : R -> R)
    (info : DMDALocalInfo) (au : RealArray) (usr : AdCtx) (i : Z) :
  limiter_fcn usr = Some addr_vanleer ->
  face_u_up wind info au i - face_u_far wind info au i =
  face_u_dn wind info au i - face_u_up wind info au i ->
  flux (face_flux wind info au usr i) =
  face_a wind info i
  * ((face_u_up wind info au i + face_u_dn wind info au i) / 2).
Proof.
  intros Hl Hg. unfold face_flux. rewrite Hl. unfold Rneqb.
  destruct (Req_dec_T (face_u_dn wind info au i) (face_u_up wind info au i))
    as [E|NE]; cbn [flux call].
  - rewrite E. field.
  - rewrite Hg.
    replace ((face_u_dn wind info au i - face_u_up wind info au i)
             / (face_u_dn wind info au i - face_u_up wind info au i))
      with 1 by (field; lra).
    rewrite vanleer_1. field.
Qed.

Lemma vanleer_flux_on_linear_profile_witness :
  flux (face_flux wind_a grid5 (fun j => 1 - IZR j) (ctx_of VANLEER NONE) 2) =
  face_a wind_a grid5 2
  * ((face_u_up wind_a grid5 (fun j => 1 - IZR j) 2
      + face_u_dn wind_a grid5 (fun j => 1 - IZR j) 2) / 2).
Proof.
  apply (vanleer_flux_on_linear_profile wind_a grid5 (fun j => 1 - IZR j)
           (ctx_of VANLEER NONE) 2).
  - reflexivity.
  - unfold face_u_up, face_u_dn, face_u_far, face_a, wind_a.
    rtests. cbn. lra.
Defined.

(** X26.  The residual evaluator uses no array entry outside the grid: on
    a grid of at least two points, two trial arrays that agree on the
    indices [0 .. N-1] give the same residual in every owned cell, for
    every wind and limiter. *)
Theorem residual_reads_inside_grid (wind : R -> R) (N xs0 xm0 : Z)
    (au au' aF : RealArray) (usr : AdCtx) (j : Z) :
  (2 <= N)%Z -> (0 <= j < N)%Z -> owned (mkInfo N xs0 xm0) j ->
  (forall k : Z, (0 <= k < N)%Z -> au k = au' k) ->
  snd (FormFunctionLocal wind (mkInfo N xs0 xm0) au aF usr) j =
  snd (FormFunctionLocal wind (mkInfo N xs0 xm0) au' aF usr) j.
Proof.
  intros HN Hj Hown Hag.
  rewrite !FormFunctionLocal_owned by (assumption || (cbn [mx]; lia)).
  apply residual_at_ext; [assumption|]. intros k Hk _. now apply Hag.
Qed.

Lemma residual_reads_inside_grid_witness :
  snd (FormFunctionLocal wind_a (mkInfo 5 0 5) u_step zeros
         (ctx_of VANLEER NONE)) 1%Z =
  snd (FormFunctionLocal wind_a (mkInfo 5 0 5)
         (fun k => if (k <? 0)%Z then 7 else u_step k) zeros
         (ctx_of VANLEER NONE)) 1%Z.
Proof.
  apply (residual_reads_inside_grid wind_a 5 0 5 u_step
           (fun k => if (k <? 0)%Z then 7 else u_step k) zeros
           (ctx_of VANLEER NONE) 1).
  - lia.
  - lia.
  - unfold owned; cbn; lia.
  - intros k Hk. destruct (Z.ltb_spec k 0); [lia | reflexivity].
Defined.
